(** * ucxx asyncio core (python/ucxx/core.py): handshake, endpoints, context

    A shallow embedding of [core.py].  Coroutines are functions in a small
    state / trace / exception monad: the state is the Python object being
    mutated ([self]), the trace records the calls made on the transport
    library (libucxx), and the outcomes of those calls are supplied by an
    environment record, since the transport is an external collaborator.
    An [await] is an explicit step at which other tasks may run and change
    the object. *)

From Stdlib Require Import ZArith String List Bool Lia.
From Stdlib Require Import Strings.Byte.
From stdpp Require Import base option list gmap strings.

Local Open Scope string_scope.
Local Open Scope Z_scope.
Local Open Scope list_scope.

(** ** Python values, exceptions and results *)

(** The Python values the modelled code passes around as tags, hash inputs
    and return values. *)
Inductive pyval : Type :=
  | PNone
  | PBool (b : bool)
  | PInt (z : Z)
  | PStr (s : string)
  | PBytes (bs : list Byte.byte).

(** Truth value of a Python value. *)
Definition truthy (v : pyval) : bool :=
  match v with
  | PNone => false
  | PBool b => b
  | PInt z => negb (z =? 0)%Z
  | PStr s => negb (String.eqb s EmptyString)
  | PBytes bs => negb (Nat.eqb (List.length bs) 0)
  end.

(** Exception classes raised by [core.py] or by the operations it calls. *)
Inductive exn : Type :=
  | UCXCloseError
  | UCXCanceled
  | UCXError
  | UCXConnectionResetError
  | RuntimeError
  | ValueError
  | StructError
  | AttributeError
  | TypeError
  | KeyError
  | NameError
  | UnboundLocalError.

Inductive result (A : Type) : Type :=
  | Ok (a : A)
  | Raise (e : exn).
Arguments Ok {A} a.
Arguments Raise {A} e.

#[global] Instance byte_eq_dec : EqDecision Byte.byte := Byte.byte_eq_dec.
#[global] Instance pyval_eq_dec : EqDecision pyval.
Proof. solve_decision. Defined.
#[global] Instance exn_eq_dec : EqDecision exn.
Proof. solve_decision. Defined.

#[global] Instance result_ret : MRet result := λ A a, Ok a.
#[global] Instance result_bind : MBind result := λ A B f m,
  match m with
  | Ok a => f a
  | Raise e => Raise e
  end.

(** ** The objects of [core.py] *)

(** An event loop, by identity. *)
Definition loop_id : Type := nat.

(** A [ucx_api.UCXEndpoint], as far as [core.py] observes it: its handle,
    the error [raise_on_error()] would raise, and what [is_alive()]
    reports. *)
Record UCXEndpoint : Type := {
  handle : Z;
  ep_error : option exn;
  ep_alive : bool;
}.

(** A reference to the [ApplicationContext] object. *)
Inductive ctx_ref : Type := CtxRef (id : nat).

(** [class Endpoint]: the attributes set by [__init__]. *)
Record Endpoint : Type := {
  _ep : option UCXEndpoint;
  _ctx : option ctx_ref;
  _send_count : Z;
  _recv_count : Z;
  _finished_recv_count : Z;
  _shutting_down_peer : bool;
  _close_after_n_recv : option Z;
  _tags : option (gmap string Z);
}.

(** ** Calls on the transport library, as they appear in a trace *)

Inductive event : Type :=
  | EvStreamSend (data : list Byte.byte)   (* endpoint.stream_send(arr) *)
  | EvStreamRecv (nbytes : nat)            (* endpoint.stream_recv(arr) *)
  | EvTagSend (buffer : pyval) (tag : pyval)       (* _ep.tag_send(buffer, tag) *)
  | EvTagSendMulti (buffers : list pyval) (tag : pyval)
  | EvTagRecv (buffer : pyval) (tag : pyval)       (* _ep.tag_recv(buffer, tag) *)
  | EvTagRecvMulti (tag : pyval)           (* _ep.tag_recv_multi(tag) *)
  | EvTagProbe (tag : pyval)               (* _ctx.worker.tag_probe(tag) *)
  | EvAwait                                (* await req.wait(), await sleep(0) *)
  | EvProgress                             (* worker.progress() *)
  | EvCreateEndpoint                       (* ucx_api.UCXEndpoint.create(...) *)
  | EvCreateContext                        (* ucx_api.UCXContext(config_dict) *)
  | EvCreateWorker (enable_delayed_submission enable_python_future : pyval)
                                           (* ucx_api.UCXWorker(context, ...) *)
  | EvThreadStart                          (* notifier_thread.start() *)
  | EvCallback (ep : Endpoint).            (* func(ep), the listener's callback *)

(** ** The coroutine monad *)

Definition prog (S A : Type) : Type := S → list event * S * result A.

#[global] Instance prog_ret {S} : MRet (prog S) := λ A a s, ([], s, Ok a).
#[global] Instance prog_bind {S} : MBind (prog S) := λ A B f m s,
  match m s with
  | (t, s', Ok a) => let '(t', s'', r) := f a s' in (t ++ t', s'', r)
  | (t, s', Raise e) => (t, s', Raise e)
  end.

Definition raise {S A} (e : exn) : prog S A := λ s, ([], s, Raise e).
Definition lift {S A} (r : result A) : prog S A := λ s, ([], s, r).
Definition emit {S} (ev : event) : prog S () := λ s, ([ev], s, Ok ()).
Definition get {S} : prog S S := λ s, ([], s, Ok s).
Definition modify {S} (f : S → S) : prog S () := λ s, ([], f s, Ok ()).

(** A call on the transport: recorded in the trace, outcome from the
    environment. *)
Definition call {S A} (ev : event) (outcome : result A) : prog S A :=
  λ s, ([ev], s, outcome).

(** [await req.wait()]: the task is suspended, other tasks run ([during]
    is what they do to the object), then the request's outcome is
    delivered. *)
Definition await {S A} (during : S → S) (outcome : result A) : prog S A :=
  λ s, ([EvAwait], during s, outcome).

(** [try: body except cls as e: handler e]. *)
Definition try_except {S A} (body : prog S A) (cls : exn)
    (handler : exn → prog S A) : prog S A := λ s,
  match body s with
  | (t, s', Ok a) => (t, s', Ok a)
  | (t, s', Raise e) =>
      if decide (e = cls)
      then let '(t', s'', r) := handler e s' in (t ++ t', s'', r)
      else (t, s', Raise e)
  end.

(** [try: body except Exception as e: logger.error(...)]: every exception
    class of the model derives from [Exception]. *)
Definition try_except_Exception {S} (body : prog S ()) : prog S () := λ s,
  let '(t, s', _) := body s in (t, s', Ok ()).

Definition trace_of {S A} (r : list event * S * result A) : list event := r.1.1.
Definition state_of {S A} (r : list event * S * result A) : S := r.1.2.
Definition outcome_of {S A} (r : list event * S * result A) : result A := r.2.

(** ** What [core.py] imports from outside of it *)

(** [hash64bits] comes from [ucxx/utils.py], [hash] and the set of builtin
    names from Python, the byte order of [struct]'s native mode from the
    host. *)
Class Externals : Type := {
  hash64bits : list pyval → Z;
  py_hash : pyval → Z;
  native_big_endian : bool;
  python_builtins : list string;
}.

(** ** [struct.pack] and [struct.unpack] for the format ["QQQ"] *)

Definition two64 : Z := 2 ^ 64.

Definition byte_of_Z (z : Z) : Byte.byte :=
  default Byte.x00 (Byte.of_N (Z.to_N (z mod 256))).
Definition Z_of_byte (b : Byte.byte) : Z := Z.of_N (Byte.to_N b).

Fixpoint le_bytes (n : nat) (z : Z) : list Byte.byte :=
  match n with
  | O => []
  | S n' => byte_of_Z z :: le_bytes n' (z / 256)
  end.

Fixpoint le_value (bs : list Byte.byte) : Z :=
  match bs with
  | [] => 0
  | b :: bs' => Z_of_byte b + 256 * le_value bs'
  end.

Section Struct.
Context `{Externals}.

(** One ['Q'] item: an unsigned 8-byte integer in native byte order;
    [struct.error] when the value does not fit. *)
Definition pack_Q (z : Z) : result (list Byte.byte) :=
  if bool_decide (0 ≤ z < two64)
  then Ok (if native_big_endian then rev (le_bytes 8 z) else le_bytes 8 z)
  else Raise StructError.

Definition unpack_Q (bs : list Byte.byte) : Z :=
  le_value (if native_big_endian then rev bs else bs).

Definition struct_pack_QQQ (a b c : Z) : result (list Byte.byte) :=
  ba ← pack_Q a; bb ← pack_Q b; bc ← pack_Q c; mret (ba ++ bb ++ bc).

Definition struct_unpack_QQQ (buf : list Byte.byte) : result (Z * Z * Z) :=
  if bool_decide (length buf = 24%nat)
  then Ok (unpack_Q (take 8 buf),
           unpack_Q (take 8 (drop 8 buf)),
           unpack_Q (take 8 (drop 16 buf)))
  else Raise StructError.
End Struct.

(** ** [exchange_peer_info] *)

(** Outcomes of the four transport calls of one handshake: posting the
    stream send, its completion, posting the stream receive, and its
    completion, which leaves the received bytes in [peer_info]. *)
Record stream_env : Type := {
  stream_send_post : result ();
  stream_send_done : result ();
  stream_recv_post : result ();
  stream_recv_done : result (list Byte.byte);
}.

Section Handshake.
Context `{Externals}.

Definition exchange_peer_info {S} (env : stream_env)
    (msg_tag ctrl_tag : Z) (listener : bool) : prog S (gmap string Z) :=
  (* Pack peer information incl. a checksum *)
  my_info ← lift (struct_pack_QQQ msg_tag ctrl_tag
                    (hash64bits [PInt msg_tag; PInt ctrl_tag]));
  let nbytes := length my_info in
  (* Send/recv peer information, with an await between the two calls *)
  peer_info ←
    (if listener then
       call (EvStreamSend my_info) (stream_send_post env);;
       await id (stream_send_done env);;
       call (EvStreamRecv nbytes) (stream_recv_post env);;
       await id (stream_recv_done env)
     else
       call (EvStreamRecv nbytes) (stream_recv_post env);;
       peer_info ← await id (stream_recv_done env);
       call (EvStreamSend my_info) (stream_send_post env);;
       await id (stream_send_done env);;
       mret peer_info);
  (* Unpacking and sanity check of the peer information *)
  '(m, c, k) ← lift (struct_unpack_QQQ peer_info);
  let ret : gmap string Z :=
    <["checksum" := k]> (<["ctrl_tag" := c]> (<["msg_tag" := m]> ∅)) in
  let expected_checksum := hash64bits [PInt m; PInt c] in
  if bool_decide (expected_checksum ≠ k)
  then raise RuntimeError
  else mret ret.
End Handshake.

(** ** [class Endpoint] *)

(** Attribute assignments on an [Endpoint]. *)
Definition set_ep (v : option UCXEndpoint) (self : Endpoint) : Endpoint :=
  {| _ep := v; _ctx := _ctx self; _send_count := _send_count self;
     _recv_count := _recv_count self;
     _finished_recv_count := _finished_recv_count self;
     _shutting_down_peer := _shutting_down_peer self;
     _close_after_n_recv := _close_after_n_recv self; _tags := _tags self |}.
Definition set_ctx (v : option ctx_ref) (self : Endpoint) : Endpoint :=
  {| _ep := _ep self; _ctx := v; _send_count := _send_count self;
     _recv_count := _recv_count self;
     _finished_recv_count := _finished_recv_count self;
     _shutting_down_peer := _shutting_down_peer self;
     _close_after_n_recv := _close_after_n_recv self; _tags := _tags self |}.
Definition set_send_count (v : Z) (self : Endpoint) : Endpoint :=
  {| _ep := _ep self; _ctx := _ctx self; _send_count := v;
     _recv_count := _recv_count self;
     _finished_recv_count := _finished_recv_count self;
     _shutting_down_peer := _shutting_down_peer self;
     _close_after_n_recv := _close_after_n_recv self; _tags := _tags self |}.
Definition set_recv_count (v : Z) (self : Endpoint) : Endpoint :=
  {| _ep := _ep self; _ctx := _ctx self; _send_count := _send_count self;
     _recv_count := v;
     _finished_recv_count := _finished_recv_count self;
     _shutting_down_peer := _shutting_down_peer self;
     _close_after_n_recv := _close_after_n_recv self; _tags := _tags self |}.
Definition set_finished_recv_count (v : Z) (self : Endpoint) : Endpoint :=
  {| _ep := _ep self; _ctx := _ctx self; _send_count := _send_count self;
     _recv_count := _recv_count self;
     _finished_recv_count := v;
     _shutting_down_peer := _shutting_down_peer self;
     _close_after_n_recv := _close_after_n_recv self; _tags := _tags self |}.
Definition set_shutting_down_peer (v : bool) (self : Endpoint) : Endpoint :=
  {| _ep := _ep self; _ctx := _ctx self; _send_count := _send_count self;
     _recv_count := _recv_count self;
     _finished_recv_count := _finished_recv_count self;
     _shutting_down_peer := v;
     _close_after_n_recv := _close_after_n_recv self; _tags := _tags self |}.
Definition set_close_after_n_recv (v : option Z) (self : Endpoint) : Endpoint :=
  {| _ep := _ep self; _ctx := _ctx self; _send_count := _send_count self;
     _recv_count := _recv_count self;
     _finished_recv_count := _finished_recv_count self;
     _shutting_down_peer := _shutting_down_peer self;
     _close_after_n_recv := v; _tags := _tags self |}.

(** [Endpoint.__init__(endpoint, ctx, tags)]; both [isinstance] checks hold
    for arguments of these types. *)
Definition Endpoint_init (endpoint : UCXEndpoint) (ctx : ctx_ref)
    (tags : option (gmap string Z)) : Endpoint :=
  {| _ep := Some endpoint; _ctx := Some ctx; _send_count := 0;
     _recv_count := 0; _finished_recv_count := 0;
     _shutting_down_peer := false; _close_after_n_recv := None;
     _tags := tags |}.

(** [self._ep.<method>]: an attribute of [None] is an [AttributeError]. *)
Definition attr_of_ep (self : Endpoint) : result UCXEndpoint :=
  match _ep self with
  | Some ep => Ok ep
  | None => Raise AttributeError
  end.

(** [self._ctx.worker]. *)
Definition attr_of_ctx (self : Endpoint) : result ctx_ref :=
  match _ctx self with
  | Some c => Ok c
  | None => Raise AttributeError
  end.

(** [self._tags[key]]: subscripting [None] is a [TypeError], a missing key
    a [KeyError]. *)
Definition tags_item (self : Endpoint) (key : string) : result Z :=
  match _tags self with
  | None => Raise TypeError
  | Some tags =>
      match tags !! key with
      | Some t => Ok t
      | None => Raise KeyError
      end
  end.

Definition raise_on_error (ep : UCXEndpoint) : result () :=
  match ep_error ep with
  | Some e => Raise e
  | None => Ok ()
  end.

(** [Endpoint.closed]: [self._ep is None or not self._ep.is_alive()]. *)
Definition closed (self : Endpoint) : bool :=
  match _ep self with
  | None => true
  | Some ep => negb (ep_alive ep)
  end.

(** [Endpoint.abort]. *)
Definition abort (self : Endpoint) : Endpoint :=
  set_ctx None (set_ep None self).

(** The buffers argument of [send_multi]: a list or tuple of buffers, or
    some other object. *)
Inductive buffers_arg : Type :=
  | BuffersSeq (bs : list pyval)
  | BuffersOther (v : pyval).

(** Outcomes of the transport calls of one [send] or [send_multi]:
    posting the tagged send, what other tasks do to the endpoint while the
    caller is suspended, and the completion of the request. *)
Record send_env : Type := {
  tag_send_post : result ();
  tag_send_during : Endpoint → Endpoint;
  tag_send_done : result pyval;
}.

(** The same for [recv] and [recv_multi], with the outcome of
    [worker.tag_probe(tag)] and, for [recv_multi], of the [check_error()]
    calls on the component requests and of [get_py_buffers()]. *)
Record recv_env : Type := {
  tag_probe_result : result bool;
  tag_recv_post : result ();
  tag_recv_during : Endpoint → Endpoint;
  tag_recv_done : result pyval;
  tag_recv_check_error : result ();
  tag_recv_py_buffers : pyval;
}.

Section EndpointMethods.
Context `{Externals}.

Definition send (env : send_env) (buffer tag : pyval) (force_tag : bool)
    : prog Endpoint pyval :=
  self ← get;
  ep ← lift (attr_of_ep self);
  lift (raise_on_error ep);;
  (if closed self then raise UCXCloseError else mret ());;
  tag ← lift (match tag with
              | PNone => t ← tags_item self "msg_send"; mret (PInt t)
              | _ =>
                  if negb force_tag
                  then t ← tags_item self "msg_send";
                       mret (PInt (hash64bits [PInt t; PInt (py_hash tag)]))
                  else mret tag
              end);
  modify (λ self, set_send_count (_send_count self + 1) self);;
  try_except
    (self ← get;
     _ ← lift (attr_of_ep self);
     call (EvTagSend buffer tag) (tag_send_post env);;
     await (tag_send_during env) (tag_send_done env))
    UCXCanceled
    (λ e, self ← get;
          match _ep self with
          | None => raise e
          | Some _ => mret PNone
          end).

Definition send_multi (env : send_env) (buffers : buffers_arg)
    (tag : pyval) (force_tag : bool) : prog Endpoint pyval :=
  self ← get;
  ep ← lift (attr_of_ep self);
  lift (raise_on_error ep);;
  (if closed self then raise UCXCloseError else mret ());;
  buffers ← (match buffers with
             | BuffersSeq bs => mret bs
             | BuffersOther _ => raise ValueError
             end);
  tag ← lift (match tag with
              | PNone => t ← tags_item self "msg_send"; mret (PInt t)
              | _ =>
                  if negb force_tag
                  then t ← tags_item self "msg_send";
                       mret (PInt (hash64bits [PInt t; PInt (py_hash tag)]))
                  else mret tag
              end);
  modify (λ self, set_send_count (_send_count self + 1) self);;
  try_except
    (self ← get;
     _ ← lift (attr_of_ep self);
     call (EvTagSendMulti buffers tag) (tag_send_post env);;
     await (tag_send_during env) (tag_send_done env))
    UCXCanceled
    (λ e, self ← get;
          match _ep self with
          | None => raise e
          | Some _ => mret PNone
          end).

(** [Endpoint.close]; [during] is what other tasks do to the endpoint
    while [close] is suspended in [asyncio.sleep(0)]. The [finally] block
    runs after the early [return] as well as after the assignment. *)
Definition close (during : Endpoint → Endpoint) : prog Endpoint () :=
  self ← get;
  if closed self then
    modify abort
  else
    (* Making sure we only tell peer to shutdown once *)
    (if _shutting_down_peer self then mret ()
     else modify (set_shutting_down_peer true));;
    self ← get;
    if negb (closed self) then
      (* Give all current outstanding send() calls a chance to return *)
      _ ← lift (attr_of_ctx self);
      emit EvProgress;;
      await during (Ok ());;
      modify abort
    else mret ().

(** The threshold check after a finished receive. *)
Definition close_if_n_recv_reached : prog Endpoint () :=
  self ← get;
  match _close_after_n_recv self with
  | Some n =>
      if bool_decide (n ≤ _finished_recv_count self)
      then modify abort
      else mret ()
  | None => mret ()
  end.

Definition recv (env : recv_env) (buffer tag : pyval) (force_tag : bool)
    : prog Endpoint pyval :=
  self ← get;
  tag ← lift (match tag with
              | PNone => t ← tags_item self "msg_recv"; mret (PInt t)
              | _ =>
                  if negb force_tag
                  then t ← tags_item self "msg_recv";
                       mret (PInt (hash64bits [PInt t; PInt (py_hash tag)]))
                  else mret tag
              end);
  _ ← lift (attr_of_ctx self);
  probed ← call (EvTagProbe tag) (tag_probe_result env);
  (if negb probed then
     ep ← lift (attr_of_ep self);
     lift (raise_on_error ep);;
     if closed self then raise UCXCloseError else mret ()
   else mret ());;
  modify (λ self, set_recv_count (_recv_count self + 1) self);;
  _ ← lift (attr_of_ep self);
  call (EvTagRecv buffer tag) (tag_recv_post env);;
  ret ← await (tag_recv_during env) (tag_recv_done env);
  modify (λ self,
    set_finished_recv_count (_finished_recv_count self + 1) self);;
  close_if_n_recv_reached;;
  mret ret.

Definition recv_multi (env : recv_env) (tag : pyval) (force_tag : bool)
    : prog Endpoint pyval :=
  self ← get;
  tag ← lift (match tag with
              | PNone => t ← tags_item self "msg_recv"; mret (PInt t)
              | _ =>
                  if negb force_tag
                  then t ← tags_item self "msg_recv";
                       mret (PInt (hash64bits [PInt t; PInt (py_hash tag)]))
                  else mret tag
              end);
  _ ← lift (attr_of_ctx self);
  probed ← call (EvTagProbe tag) (tag_probe_result env);
  (if negb probed then
     ep ← lift (attr_of_ep self);
     lift (raise_on_error ep);;
     if closed self then raise UCXCloseError else mret ()
   else mret ());;
  modify (λ self, set_recv_count (_recv_count self + 1) self);;
  _ ← lift (attr_of_ep self);
  call (EvTagRecvMulti tag) (tag_recv_post env);;
  _ ← await (tag_recv_during env) (tag_recv_done env);
  lift (tag_recv_check_error env);;
  let ret := tag_recv_py_buffers env in
  modify (λ self,
    set_finished_recv_count (_finished_recv_count self + 1) self);;
  close_if_n_recv_reached;;
  mret ret.

(** [Endpoint.close_after_n_recv(n, count_from_ep_creation)]; it is not a
    coroutine, so its trace has no suspension. *)
Definition close_after_n_recv (n : Z) (count_from_ep_creation : bool)
    : prog Endpoint () :=
  self ← get;
  let n := if negb count_from_ep_creation
           then n + _finished_recv_count self   (* Make `n` absolute *)
           else n in
  match _close_after_n_recv self with
  | Some _ => raise UCXError
  | None =>
      if bool_decide (n = _finished_recv_count self) then
        modify abort
      else if bool_decide (_finished_recv_count self < n) then
        modify (set_close_after_n_recv (Some n))
      else
        raise UCXError
  end.
End EndpointMethods.

(** ** [class ApplicationContext] *)

(** A [ucx_api.UCXWorker]: the keyword arguments it was constructed with,
    and what [is_python_future_enabled()] reports. *)
Record UCXWorker : Type := {
  enable_delayed_submission : pyval;
  enable_python_future : pyval;
  python_future_enabled : bool;
}.

(** The progress tasks of [continuous_ucx_progress.py], with the arguments
    [core.py] constructs them with. *)
Inductive ProgressTask : Type :=
  | ThreadMode (worker : UCXWorker) (loop : loop_id) (polling_mode : bool)
  | PollingMode (worker : UCXWorker) (loop : loop_id).

Definition task_event_loop (t : ProgressTask) : loop_id :=
  match t with
  | ThreadMode _ loop _ => loop
  | PollingMode _ loop => loop
  end.

(** Modelled from the spec: the equality of a progress task with an event
    loop, which [loop in self.progress_tasks] uses, is defined in
    [continuous_ucx_progress.py]; the spec has the bindings "keyed by
    scheduler instance", a binding being "skipped if that scheduler already
    has one registered". *)
Definition ProgressTask_eq (t : ProgressTask) (loop : loop_id) : bool :=
  bool_decide (task_event_loop t = loop).

(** The [threading.Thread] of the notifier. *)
Record Thread : Type := {
  thread_name : string;
  thread_args : loop_id * UCXWorker;
}.

(** The attributes of an [ApplicationContext]; [worker] is unset until
    [__init__] assigns it. *)
Record ApplicationContext : Type := {
  progress_tasks : list ProgressTask;
  notifier_thread_q : option (list string);
  notifier_thread : option Thread;
  progress_mode : string;
  worker : option UCXWorker;
}.

Definition set_progress_tasks (v : list ProgressTask)
    (self : ApplicationContext) : ApplicationContext :=
  {| progress_tasks := v; notifier_thread_q := notifier_thread_q self;
     notifier_thread := notifier_thread self;
     progress_mode := progress_mode self; worker := worker self |}.
Definition set_notifier_thread_q (v : option (list string))
    (self : ApplicationContext) : ApplicationContext :=
  {| progress_tasks := progress_tasks self; notifier_thread_q := v;
     notifier_thread := notifier_thread self;
     progress_mode := progress_mode self; worker := worker self |}.
Definition set_notifier_thread (v : option Thread)
    (self : ApplicationContext) : ApplicationContext :=
  {| progress_tasks := progress_tasks self;
     notifier_thread_q := notifier_thread_q self; notifier_thread := v;
     progress_mode := progress_mode self; worker := worker self |}.
Definition set_progress_mode (v : string)
    (self : ApplicationContext) : ApplicationContext :=
  {| progress_tasks := progress_tasks self;
     notifier_thread_q := notifier_thread_q self;
     notifier_thread := notifier_thread self;
     progress_mode := v; worker := worker self |}.
Definition set_worker (v : option UCXWorker)
    (self : ApplicationContext) : ApplicationContext :=
  {| progress_tasks := progress_tasks self;
     notifier_thread_q := notifier_thread_q self;
     notifier_thread := notifier_thread self;
     progress_mode := progress_mode self; worker := v |}.

(** [self.worker]. *)
Definition attr_worker (self : ApplicationContext) : result UCXWorker :=
  match worker self with
  | Some w => Ok w
  | None => Raise AttributeError
  end.

(** How the body of a Python function ends: at a [return] statement, or
    by running off its last statement with its local variable as it is
    then; the call then evaluates to [None]. *)
Inductive completion : Type :=
  | Returns (v : pyval)
  | FallsOffEnd (local : pyval).

Definition call_value (c : completion) : pyval :=
  match c with
  | Returns v => v
  | FallsOffEnd _ => PNone
  end.

(** The names bound at module level in [core.py]: its imports, its
    assignments, its functions and its classes. *)
Definition module_globals : list string :=
  [ "array"; "asyncio"; "gc"; "logging"; "os"; "struct"; "threading";
    "weakref"; "partial"; "close_fd"; "Queue"; "ucx_api"; "Array";
    "UCXBaseException"; "UCXCanceled"; "UCXCloseError";
    "UCXConnectionResetError"; "UCXError"; "PollingMode"; "ThreadMode";
    "hash64bits"; "logger"; "_ctx"; "_get_ctx"; "exchange_peer_info";
    "_listener_handler_coroutine"; "_listener_handler";
    "_run_request_notifier"; "_notifier_coroutine"; "_notifierThread";
    "ApplicationContext"; "Listener"; "Endpoint"; "init"; "reset";
    "stop_notifier_thread"; "get_ucx_version"; "progress"; "get_config";
    "create_listener"; "create_endpoint";
    "create_endpoint_from_worker_address"; "continuous_ucx_progress";
    "get_ucp_worker" ].

(** What the process gives [ApplicationContext.__init__]: the environment
    variables, the current event loop, the outcomes of constructing the
    transport context and the worker, and what a worker constructed with
    given keyword arguments reports for [is_python_future_enabled()]. *)
Record init_env : Type := {
  environ : gmap string string;
  get_event_loop : loop_id;
  context_create : result ();
  worker_create : result ();
  worker_python_future : pyval → pyval → bool;
}.

Section Context_.
Context `{Externals}.

(** Evaluating a name inside a function with the given local names:
    locals, then module globals, then builtins. *)
Definition load_name (locals : list string) (name : string) : result () :=
  if bool_decide (name ∈ locals ++ module_globals ++ python_builtins)
  then Ok ()
  else Raise NameError.

Definition valid_progress_modes : list string :=
  ["polling"; "thread"; "thread-polling"].

Definition _check_progress_mode (env : init_env) (progress_mode : pyval)
    : result string :=
  let progress_mode :=
    match progress_mode with
    | PNone =>
        match environ env !! "UCXPY_PROGRESS_MODE" with
        | Some v => PStr v
        | None => PStr "thread"
        end
    | v => v
    end in
  match progress_mode with
  | PStr s =>
      if existsb (λ m, bool_decide (s = m)) valid_progress_modes
      then Ok s
      else Raise ValueError
  | _ => Raise ValueError
  end.

Definition _check_enable_delayed_submission_body (env : init_env)
    (enable_delayed_submission : pyval) : completion :=
  let enable_delayed_submission :=
    match enable_delayed_submission with
    | PNone =>
        match environ env !! "UCXPY_ENABLE_DELAYED_SUBMISSION" with
        | Some v => PBool (if bool_decide (v = "0") then false else true)
        | None => PBool true
        end
    | v => v
    end in
  FallsOffEnd enable_delayed_submission.

Definition _check_enable_delayed_submission (env : init_env)
    (enable_delayed_submission : pyval) : pyval :=
  call_value (_check_enable_delayed_submission_body env
                enable_delayed_submission).

Definition _check_enable_python_future_body (env : init_env)
    (enable_python_future : pyval) (progress_mode : string) : completion :=
  let explicit_enable_python_future :=
    match enable_python_future with
    | PNone =>
        match environ env !! "UCXPY_ENABLE_PYTHON_FUTURE" with
        | Some v => PBool (negb (bool_decide (v = "0")))
        | None => PBool false
        end
    | v => v
    end in
  let enable_python_future :=
    if negb (String.prefix "thread" progress_mode)
       && truthy explicit_enable_python_future
    then PBool false   (* after the warning; the local is not used again *)
    else enable_python_future in
  Returns explicit_enable_python_future.

Definition _check_enable_python_future (env : init_env)
    (enable_python_future : pyval) (progress_mode : string) : pyval :=
  call_value (_check_enable_python_future_body env enable_python_future
                progress_mode).

(** [start_notifier_thread(self)]: its only local name is [self]. *)
Definition start_notifier_thread (env : init_env)
    : prog ApplicationContext () :=
  self ← get;
  w ← lift (attr_worker self);
  if python_future_enabled w then
    modify (set_notifier_thread_q (Some []));;
    (* threading.Thread(target=_notifierThread,
                        args=(loop, self.worker, self.notifier_thread_q),
                        name=...) *)
    lift (load_name ["self"] "threading");;
    lift (load_name ["self"] "_notifierThread");;
    lift (load_name ["self"] "loop");;
    modify (set_notifier_thread
              (Some {| thread_name := "UCX-Py Async Notifier Thread";
                       thread_args := (get_event_loop env, w) |}));;
    emit EvThreadStart
  else mret ().

Definition continuous_ucx_progress (env : init_env)
    (event_loop : option loop_id) : prog ApplicationContext () :=
  let loop := match event_loop with
              | Some l => l
              | None => get_event_loop env
              end in
  self ← get;
  if existsb (λ t, ProgressTask_eq t loop) (progress_tasks self) then
    mret ()  (* Progress has already been guaranteed for this loop *)
  else
    task ←
      (if bool_decide (progress_mode self = "thread") then
         w ← lift (attr_worker self); mret (ThreadMode w loop false)
       else if bool_decide (progress_mode self = "thread-polling") then
         w ← lift (attr_worker self); mret (ThreadMode w loop true)
       else if bool_decide (progress_mode self = "polling") then
         w ← lift (attr_worker self); mret (PollingMode w loop)
       else raise UnboundLocalError);
    modify (λ self, set_progress_tasks (progress_tasks self ++ [task]) self).

(** [ApplicationContext.__init__], run on the object before any of its
    attributes is assigned. *)
Definition ApplicationContext_init (env : init_env)
    (progress_mode_arg enable_delayed_submission_arg
     enable_python_future_arg : pyval) : prog ApplicationContext () :=
  modify (set_progress_tasks []);;
  modify (set_notifier_thread_q None);;
  modify (set_notifier_thread None);;
  mode ← lift (_check_progress_mode env progress_mode_arg);
  modify (set_progress_mode mode);;
  let enable_delayed_submission :=
    _check_enable_delayed_submission env enable_delayed_submission_arg in
  let enable_python_future :=
    _check_enable_python_future env enable_python_future_arg mode in
  (* For now, a application context only has one worker *)
  call EvCreateContext (context_create env);;
  call (EvCreateWorker enable_delayed_submission enable_python_future)
    (worker_create env);;
  modify (set_worker
    (Some {| enable_delayed_submission := enable_delayed_submission;
             enable_python_future := enable_python_future;
             python_future_enabled :=
               worker_python_future env enable_delayed_submission
                 enable_python_future |}));;
  start_notifier_thread env;;
  continuous_ucx_progress env None.

Definition blank_ApplicationContext : ApplicationContext :=
  {| progress_tasks := []; notifier_thread_q := None;
     notifier_thread := None; progress_mode := ""; worker := None |}.
End Context_.

(** ** Creating endpoints: the two callers of [exchange_peer_info] *)

(** What one handshake gets from outside: the bytes of [os.urandom(16)]
    and the outcomes of its stream transfers. *)
Record handshake_env : Type := {
  urandom : list Byte.byte;
  streams : stream_env;
}.

(** [peer_info[key]]. *)
Definition dict_item (d : gmap string Z) (key : string) : result Z :=
  match d !! key with
  | Some v => Ok v
  | None => Raise KeyError
  end.

Section CreateEndpoint.
Context `{Externals}.

(** [ApplicationContext.create_endpoint]; [self_ref] is the reference to
    [self] that the new [Endpoint] keeps. *)
Definition create_endpoint (self_ref : ctx_ref) (ienv : init_env)
    (endpoint_create : result UCXEndpoint) (henv : handshake_env)
    : prog ApplicationContext Endpoint :=
  continuous_ucx_progress ienv None;;
  self ← get;
  _ ← lift (attr_worker self);
  ucx_ep ← call EvCreateEndpoint endpoint_create;
  emit EvProgress;;
  let seed := urandom henv in
  let msg_tag :=
    hash64bits [PStr "msg_tag"; PBytes seed; PInt (handle ucx_ep)] in
  let ctrl_tag :=
    hash64bits [PStr "ctrl_tag"; PBytes seed; PInt (handle ucx_ep)] in
  peer_info ← exchange_peer_info (streams henv) msg_tag ctrl_tag false;
  peer_msg_tag ← lift (dict_item peer_info "msg_tag");
  peer_ctrl_tag ← lift (dict_item peer_info "ctrl_tag");
  let tags : gmap string Z :=
    <["ctrl_recv" := ctrl_tag]> (<["ctrl_send" := peer_ctrl_tag]>
    (<["msg_recv" := msg_tag]> (<["msg_send" := peer_msg_tag]> ∅))) in
  mret (Endpoint_init ucx_ep self_ref (Some tags)).

(** [_listener_handler_coroutine(conn_request, ctx, func, ...)]; the
    callback [func] is a coroutine function or a plain function, and
    [func_outcome] is how the call [func(ep)] ends. *)
Definition _listener_handler_coroutine {S} (conn_request : UCXEndpoint)
    (ctx : ctx_ref) (henv : handshake_env)
    (func_is_coroutine : bool) (func_outcome : result ()) : prog S () :=
  let endpoint := conn_request in
  let seed := urandom henv in
  let msg_tag :=
    hash64bits [PStr "msg_tag"; PBytes seed; PInt (handle endpoint)] in
  let ctrl_tag :=
    hash64bits [PStr "ctrl_tag"; PBytes seed; PInt (handle endpoint)] in
  peer_info ← exchange_peer_info (streams henv) msg_tag ctrl_tag true;
  peer_msg_tag ← lift (dict_item peer_info "msg_tag");
  peer_ctrl_tag ← lift (dict_item peer_info "ctrl_tag");
  let tags : gmap string Z :=
    <["ctrl_recv" := ctrl_tag]> (<["ctrl_send" := peer_ctrl_tag]>
    (<["msg_recv" := msg_tag]> (<["msg_send" := peer_msg_tag]> ∅))) in
  let ep := Endpoint_init endpoint ctx (Some tags) in
  (* Finally, we call `func` *)
  if func_is_coroutine then
    try_except_Exception
      (emit (EvCallback ep);; await id func_outcome)
  else
    call (EvCallback ep) func_outcome.

(** The endpoints a trace hands to the listener's callback. *)
Definition delivered (t : list event) : list Endpoint :=
  omap (λ ev, match ev with EvCallback ep => Some ep | _ => None end) t.
End CreateEndpoint.

(** ** [Endpoint.send_obj] *)

Section SendObj.
Context `{Externals}.

(** [array.array("Q", [n])] as a buffer: the 8 bytes of [n] in native byte
    order. [n] is the byte count of a buffer, which is below [2^64]; the
    properties of [send_obj] carry that bound. *)
Definition array_Q (n : Z) : list Byte.byte :=
  if native_big_endian then rev (le_bytes 8 n) else le_bytes 8 n.

(** [Endpoint.send_obj(obj, tag)]: the size message, then the object, each
    with its own [send]; [env_size] and [env_obj] are what the transport
    answers to the two. *)
Definition send_obj (env_size env_obj : send_env) (obj : list Byte.byte)
    (tag : pyval) : prog Endpoint pyval :=
  let nbytes := PBytes (array_Q (Z.of_nat (length obj))) in
  send env_size nbytes tag false;;
  send env_obj (PBytes obj) tag false;;
  mret PNone.
End SendObj.

(** ** [class Listener] *)

(** A [ucx_api.UCXListener], as far as [core.py] observes it. *)
Record UCXListener : Type := {
  listener_ip : string;
  listener_port : Z;
}.

Record Listener : Type := {
  _listener : option UCXListener;
}.

(** [Listener.__init__(listener)]; the [isinstance] check holds for an
    argument of this type. *)
Definition Listener_init (listener : UCXListener) : Listener :=
  {| _listener := Some listener |}.

(** [Listener.closed]. *)
Definition Listener_closed (self : Listener) : bool :=
  match _listener self with
  | None => true
  | Some _ => false
  end.

(** [Listener.ip] and [Listener.port]: an attribute of [None] is an
    [AttributeError]. *)
Definition Listener_ip (self : Listener) : result string :=
  match _listener self with
  | Some l => Ok (listener_ip l)
  | None => Raise AttributeError
  end.
Definition Listener_port (self : Listener) : result Z :=
  match _listener self with
  | Some l => Ok (listener_port l)
  | None => Raise AttributeError
  end.

(** [Listener.close]. *)
Definition Listener_close (self : Listener) : Listener :=
  {| _listener := None |}.

(** ** More of [class ApplicationContext] *)

(** ["... %d" % port]: a number is formatted, any other value is a
    [TypeError]. *)
Definition format_d (v : pyval) : result () :=
  match v with
  | PInt _ | PBool _ => Ok ()
  | _ => Raise TypeError
  end.

(** [ApplicationContext.create_listener(callback_func, port, ...)];
    [listener_create] is how [ucx_api.UCXListener.create] answers for the
    port it is given. *)
Definition create_listener (ienv : init_env)
    (listener_create : pyval → result UCXListener) (port : pyval)
    : prog ApplicationContext Listener :=
  continuous_ucx_progress ienv None;;
  let port := match port with
              | PNone => PInt 0
              | v => v
              end in
  (* logger.info("create_listener() - Start listening on port %d" % port) *)
  lift (format_d port);;
  self ← get;
  _ ← lift (attr_worker self);
  listener ← lift (listener_create port);
  mret (Listener_init listener).

(** [ApplicationContext.create_endpoint_from_worker_address]; the call
    [ucx_api.UCXEndpoint.create_from_worker_address(...)] is recorded like
    [UCXEndpoint.create(...)]. *)
Definition create_endpoint_from_worker_address (self_ref : ctx_ref)
    (ienv : init_env) (endpoint_create : result UCXEndpoint)
    : prog ApplicationContext Endpoint :=
  continuous_ucx_progress ienv None;;
  self ← get;
  _ ← lift (attr_worker self);
  ucx_ep ← call EvCreateEndpoint endpoint_create;
  emit EvProgress;;
  mret (Endpoint_init ucx_ep self_ref None).

(** ** The module-level context *)

(** The functions at the end of [core.py] work on the global [_ctx], which
    is the state here: [None] until the first use. *)
Module core.
Section Globals.
Context `{Externals}.

(** [ApplicationContext(...)]: [__init__] run on a new object, which is
    the result when [__init__] returns. *)
Definition new_ApplicationContext {S} (env : init_env)
    (progress_mode enable_delayed_submission enable_python_future : pyval)
    : prog S ApplicationContext := λ s,
  let '(t, obj, r) :=
    ApplicationContext_init env progress_mode enable_delayed_submission
      enable_python_future blank_ApplicationContext in
  (t, s, match r with
         | Ok _ => Ok obj
         | Raise e => Raise e
         end).

(** A method called on the object [_get_ctx()] returned, which is the
    global one. *)
Definition on_ctx {A} (method : prog ApplicationContext A)
    : prog (option ApplicationContext) A := λ g,
  match g with
  | Some ctx => let '(t, ctx', r) := method ctx in (t, Some ctx', r)
  | None => ([], None, Raise AttributeError)
  end.

Definition _get_ctx (env : init_env) : prog (option ApplicationContext) () :=
  g ← get;
  match g with
  | None =>
      ctx ← new_ApplicationContext env PNone PNone PNone;
      modify (λ _, Some ctx)
  | Some _ => mret ()
  end.

(** The loop of [init] that gives the environment precedence:
    [for k in os.environ.keys(): if k in options: del options[k]]. *)
Definition drop_environ_keys (environ options : gmap string string)
    : gmap string string :=
  foldl (λ options k,
           if bool_decide (is_Some (options !! k))
           then delete k options
           else options)
        options (map_to_list environ).*1.

(** [init(options, env_takes_precedence, progress_mode)]. The result is
    the [options] dict as [init] leaves it: it is the caller's object, and
    the one passed to [ApplicationContext]. *)
Definition init (env : init_env) (options : gmap string string)
    (env_takes_precedence : bool) (progress_mode : pyval)
    : prog (option ApplicationContext) (gmap string string) :=
  g ← get;
  match g with
  | Some _ => raise RuntimeError
  | None =>
      let options :=
        if env_takes_precedence
        then drop_environ_keys (environ env) options
        else options in
      ctx ← new_ApplicationContext env progress_mode PNone PNone;
      modify (λ _, Some ctx);;
      mret options
  end.

(** [progress()]. *)
Definition progress (env : init_env) : prog (option ApplicationContext) () :=
  _get_ctx env;;
  on_ctx (self ← get; _ ← lift (attr_worker self); emit EvProgress).

Definition create_listener (env : init_env)
    (listener_create : pyval → result UCXListener) (port : pyval)
    : prog (option ApplicationContext) Listener :=
  _get_ctx env;;
  on_ctx (create_listener env listener_create port).

Definition create_endpoint (self_ref : ctx_ref) (env : init_env)
    (endpoint_create : result UCXEndpoint) (henv : handshake_env)
    : prog (option ApplicationContext) Endpoint :=
  _get_ctx env;;
  on_ctx (create_endpoint self_ref env endpoint_create henv).

Definition create_endpoint_from_worker_address (self_ref : ctx_ref)
    (env : init_env) (endpoint_create : result UCXEndpoint)
    : prog (option ApplicationContext) Endpoint :=
  _get_ctx env;;
  on_ctx (create_endpoint_from_worker_address self_ref env endpoint_create).

Definition continuous_ucx_progress (env : init_env)
    (event_loop : option loop_id) : prog (option ApplicationContext) () :=
  _get_ctx env;;
  on_ctx (continuous_ucx_progress env event_loop).
End Globals.
End core.

(** ** [_notifierThread] *)

(** What [worker.wait_request_notifier] returns: the two members of
    [ucx_api.PythonRequestNotifierWaitState] that [core.py] names, and any
    other one. *)
Inductive wait_state : Type :=
  | WaitReady
  | WaitTimeout
  | WaitShutdown.

(** What one turn of the thread's loop gets from outside: the outcomes of
    [populate_python_futures_pool()] and of [wait_request_notifier(...)],
    the message in the queue if it is not empty, and the outcome of
    [task.result()] for the request notifier run on the event loop. *)
Record notifier_tick : Type := {
  tick_populate : result ();
  tick_wait : result wait_state;
  tick_message : option string;
  tick_run : result ();
}.

Inductive notifier_call : Type :=
  | NPopulate                 (* worker.populate_python_futures_pool() *)
  | NWait                     (* worker.wait_request_notifier(period_ns=...) *)
  | NRunRequestNotifier.      (* _run_request_notifier(worker) on the loop *)

(** How the thread stands when the given turns are over. *)
Inductive thread_end : Type :=
  | ThreadReturned
  | ThreadRaised (e : exn)
  | ThreadRunning.

(** [_notifierThread(event_loop, worker, q)], one [notifier_tick] per turn
    of its [while True] loop. *)
Fixpoint _notifierThread (ticks : list notifier_tick)
    : list notifier_call * thread_end :=
  match ticks with
  | [] => ([], ThreadRunning)
  | tick :: ticks' =>
      match tick_populate tick with
      | Raise e => ([NPopulate], ThreadRaised e)
      | Ok _ =>
          match tick_wait tick with
          | Raise e => ([NPopulate; NWait], ThreadRaised e)
          | Ok state =>
              let shutdown :=
                match tick_message tick with
                | Some q_val => bool_decide (q_val = "shutdown")
                | None => false
                end in
              match state, shutdown with
              | WaitShutdown, _ | _, true => ([NPopulate; NWait], ThreadReturned)
              | WaitTimeout, false =>
                  let '(calls, e) := _notifierThread ticks' in
                  (NPopulate :: NWait :: calls, e)
              | WaitReady, false =>
                  (* Notify all enqueued waiting futures *)
                  match tick_run tick with
                  | Raise e =>
                      ([NPopulate; NWait; NRunRequestNotifier], ThreadRaised e)
                  | Ok _ =>
                      let '(calls, e) := _notifierThread ticks' in
                      (NPopulate :: NWait :: NRunRequestNotifier :: calls, e)
                  end
              end
          end
      end
  end.

(** ** Concrete externals and objects, used by the examples *)

Definition pyval_code (v : pyval) : Z :=
  match v with
  | PNone => 0
  | PBool b => if b then 1 else 0
  | PInt z => z
  | PStr s => Z.of_nat (String.length s)
  | PBytes bs => Z.of_nat (List.length bs)
  end.

(** A stand-in for [hash64bits] with values below [2^64]. *)
Definition sample_hash64bits (args : list pyval) : Z :=
  fold_left (λ acc v, acc * 31 + pyval_code v) args 7 mod two64.

(** The builtin functions and constants of Python 3. *)
Definition sample_builtins : list string :=
  [ "abs"; "aiter"; "all"; "anext"; "any"; "ascii"; "bin"; "bool";
    "breakpoint"; "bytearray"; "bytes"; "callable"; "chr"; "classmethod";
    "compile"; "complex"; "delattr"; "dict"; "dir"; "divmod"; "enumerate";
    "eval"; "exec"; "filter"; "float"; "format"; "frozenset"; "getattr";
    "globals"; "hasattr"; "hash"; "help"; "hex"; "id"; "input"; "int";
    "isinstance"; "issubclass"; "iter"; "len"; "list"; "locals"; "map";
    "max"; "memoryview"; "min"; "next"; "object"; "oct"; "open"; "ord";
    "pow"; "print"; "property"; "range"; "repr"; "reversed"; "round";
    "set"; "setattr"; "slice"; "sorted"; "staticmethod"; "str"; "sum";
    "super"; "tuple"; "type"; "vars"; "zip"; "__import__"; "True";
    "False"; "None"; "Ellipsis"; "NotImplemented"; "__debug__";
    "Exception"; "BaseException"; "ValueError"; "RuntimeError";
    "NameError"; "TypeError"; "KeyError"; "AttributeError" ].

Definition sample_externals : Externals :=
  {| hash64bits := sample_hash64bits;
     py_hash := pyval_code;
     native_big_endian := false;
     python_builtins := sample_builtins |}.

Definition sample_ucx_ep : UCXEndpoint :=
  {| handle := 4096; ep_error := None; ep_alive := true |}.

Definition sample_tags : gmap string Z :=
  <["ctrl_recv" := 14]> (<["ctrl_send" := 13]>
  (<["msg_recv" := 12]> (<["msg_send" := 11]> ∅))).

Definition sample_endpoint : Endpoint :=
  Endpoint_init sample_ucx_ep (CtxRef 0) (Some sample_tags).

(** The packed handshake record a side sends, under the sample
    externals. *)
Definition sample_info (msg_tag ctrl_tag : Z) : list Byte.byte :=
  match @struct_pack_QQQ sample_externals msg_tag ctrl_tag
          (sample_hash64bits [PInt msg_tag; PInt ctrl_tag]) with
  | Ok buf => buf
  | Raise _ => []
  end.

(** A transport on which every stream call succeeds and [peer] arrives. *)
Definition sample_streams (peer : list Byte.byte) : stream_env :=
  {| stream_send_post := Ok (); stream_send_done := Ok ();
     stream_recv_post := Ok (); stream_recv_done := Ok peer |}.

(** A well-formed record whose last byte was changed in transit. *)
Definition sample_tampered : list Byte.byte :=
  take 23 (sample_info 5 6) ++ [Byte.xff].

(** A tagged send that is canceled while the caller waits; in the first
    environment another task aborts the endpoint meanwhile, in the second
    nothing touches it. *)
Definition sample_cancel_aborted : send_env :=
  {| tag_send_post := Ok (); tag_send_during := abort;
     tag_send_done := Raise UCXCanceled |}.
Definition sample_cancel_untouched : send_env :=
  {| tag_send_post := Ok (); tag_send_during := id;
     tag_send_done := Raise UCXCanceled |}.

Definition sample_recv_env : recv_env :=
  {| tag_probe_result := Ok false; tag_recv_post := Ok ();
     tag_recv_during := id; tag_recv_done := Ok (PBytes []);
     tag_recv_check_error := Ok (); tag_recv_py_buffers := PNone |}.

(** An endpoint that has finished three receives. *)
Definition sample_endpoint_3 : Endpoint :=
  set_finished_recv_count 3 (set_recv_count 3 sample_endpoint).

Definition sample_init_env : init_env :=
  {| environ := ∅; get_event_loop := 1%nat;
     context_create := Ok (); worker_create := Ok ();
     worker_python_future := λ _ _, false |}.

Definition sample_worker (python_future : bool) : UCXWorker :=
  {| enable_delayed_submission := PNone; enable_python_future := PBool false;
     python_future_enabled := python_future |}.

Definition sample_ctx (python_future : bool) : ApplicationContext :=
  {| progress_tasks := []; notifier_thread_q := None;
     notifier_thread := None; progress_mode := "thread";
     worker := Some (sample_worker python_future) |}.

(** The two sides of one connection: A connects, B accepts; each receives
    what the other one sends. *)
Definition sample_ucx_ep_B : UCXEndpoint :=
  {| handle := 8192; ep_error := None; ep_alive := true |}.
Definition sample_seed_A : list Byte.byte := repeat Byte.x01 16.
Definition sample_seed_B : list Byte.byte := repeat Byte.x02 16.
Definition sample_info_of (seed : list Byte.byte) (ep : UCXEndpoint)
    : list Byte.byte :=
  sample_info
    (sample_hash64bits [PStr "msg_tag"; PBytes seed; PInt (handle ep)])
    (sample_hash64bits [PStr "ctrl_tag"; PBytes seed; PInt (handle ep)]).
Definition sample_henv_A : handshake_env :=
  {| urandom := sample_seed_A;
     streams := sample_streams (sample_info_of sample_seed_B sample_ucx_ep_B) |}.
Definition sample_henv_B : handshake_env :=
  {| urandom := sample_seed_B;
     streams := sample_streams (sample_info_of sample_seed_A sample_ucx_ep) |}.

(** ** Progress bindings of a context *)

(** The event loop [continuous_ucx_progress] registers progress for. *)
Definition target_loop (env : init_env) (event_loop : option loop_id)
    : loop_id :=
  match event_loop with
  | Some l => l
  | None => get_event_loop env
  end.

(** The number of progress bindings a context holds for an event loop. *)
Definition bindings_for (loop : loop_id) (self : ApplicationContext) : nat :=
  length (List.filter (λ t, ProgressTask_eq t loop) (progress_tasks self)).

(** What [__init__] establishes and [continuous_ucx_progress] keeps: the
    progress mode is a valid one, the worker is set, and no event loop has
    two bindings. *)
Definition ctx_inv (self : ApplicationContext) : Prop :=
  progress_mode self ∈ valid_progress_modes ∧
  is_Some (worker self) ∧
  NoDup (task_event_loop <$> progress_tasks self).

(** ** Endpoint conditions *)

(** The endpoint has its handle, no pending error, and is alive. *)
Definition is_open (self : Endpoint) : Prop :=
  ∃ ep, _ep self = Some ep ∧ ep_error ep = None ∧ ep_alive ep = true.

(** The tagged send ends with the cancellation signal, either when it is
    posted or when its request completes. *)
Definition canceled (env : send_env) : Prop :=
  tag_send_post env = Raise UCXCanceled ∨
  (tag_send_post env = Ok () ∧ tag_send_done env = Raise UCXCanceled).

(** ** The tags of a handshake *)

Section LocalTags.
Context `{Externals}.

(** The two tags a side generates for a connection, from its random seed
    and the handle of its transport endpoint. *)
Definition local_msg_tag (henv : handshake_env) (ep : UCXEndpoint) : Z :=
  hash64bits [PStr "msg_tag"; PBytes (urandom henv); PInt (handle ep)].
Definition local_ctrl_tag (henv : handshake_env) (ep : UCXEndpoint) : Z :=
  hash64bits [PStr "ctrl_tag"; PBytes (urandom henv); PInt (handle ep)].
End LocalTags.

(** ** Shapes of handshake traces *)

(** The two orders in which a handshake can post its two transfers, each
    followed by its [await]. *)
Definition send_then_recv (my_info : list Byte.byte) : list event :=
  [EvStreamSend my_info; EvAwait; EvStreamRecv (length my_info); EvAwait].
Definition recv_then_send (my_info : list Byte.byte) : list event :=
  [EvStreamRecv (length my_info); EvAwait; EvStreamSend my_info; EvAwait].

(** The first transfer a trace posts. *)
Definition is_transfer (ev : event) : bool :=
  match ev with
  | EvStreamSend _ | EvStreamRecv _ => true
  | _ => false
  end.
Definition first_transfer (t : list event) : option event :=
  List.find is_transfer t.

(** All four stream calls of a handshake succeed and [peer] is received. *)
Definition transfers_ok (env : stream_env) (peer : list Byte.byte) : Prop :=
  stream_send_post env = Ok () ∧ stream_send_done env = Ok () ∧
  stream_recv_post env = Ok () ∧ stream_recv_done env = Ok peer.

(** ** Conditions used by the further properties *)

(** The tags fit the 8-byte fields of the handshake record. *)
Section Fits.
Context `{Externals}.

Definition tags_fit (msg_tag ctrl_tag : Z) : Prop :=
  0 ≤ msg_tag < two64 ∧ 0 ≤ ctrl_tag < two64 ∧
  0 ≤ hash64bits [PInt msg_tag; PInt ctrl_tag] < two64.
End Fits.

(** The dict [exchange_peer_info] returns for the peer's tags. *)
Definition peer_info_dict (m c k : Z) : gmap string Z :=
  <["checksum" := k]> (<["ctrl_tag" := c]> (<["msg_tag" := m]> ∅)).

(** The tag on the wire for the negotiated tag [t], a user tag and the
    [force_tag] flag. *)
Section WireTag.
Context `{Externals}.

Definition wire_tag (t : Z) (tag : pyval) (force_tag : bool) : pyval :=
  match tag with
  | PNone => PInt t
  | _ => if force_tag then tag
         else PInt (hash64bits [PInt t; PInt (py_hash tag)])
  end.
End WireTag.

(** An endpoint has its context exactly as long as it has its handle. *)
Definition linked (self : Endpoint) : Prop :=
  _ep self = None ↔ _ctx self = None.

(** The receives posted and not yet finished. *)
Definition outstanding (self : Endpoint) : Z :=
  _recv_count self - _finished_recv_count self.

(** A program keeps a property of the object it runs on. *)
Definition preserves {S A} (P : S → Prop) (m : prog S A) : Prop :=
  ∀ s, P s → P (state_of (m s)).

(** The tagged sends in a trace, in order. *)
Definition tag_sends (t : list event) : list (pyval * pyval) :=
  omap (λ ev, match ev with
              | EvTagSend buffer tag => Some (buffer, tag)
              | _ => None
              end) t.

(** A receive is let through: a matching message is already queued, or the
    endpoint has no pending error and is alive. *)
Definition recv_admitted (renv : recv_env) (ep : UCXEndpoint) : Prop :=
  tag_probe_result renv = Ok true ∨
  (tag_probe_result renv = Ok false ∧ ep_error ep = None ∧
   ep_alive ep = true).

(** The threshold check applied to an endpoint. *)
Definition after_threshold_check (self : Endpoint) : Endpoint :=
  match _close_after_n_recv self with
  | Some n => if bool_decide (n ≤ _finished_recv_count self)
              then abort self else self
  | None => self
  end.

(** ** Turns of the notifier thread *)

(** The turn ends the thread: the wait reports shutdown, or the message
    read from the queue is ["shutdown"]. *)
Definition tick_stops (tick : notifier_tick) : bool :=
  match tick_wait tick with
  | Ok WaitShutdown => true
  | _ => false
  end
  || match tick_message tick with
     | Some q_val => bool_decide (q_val = "shutdown")
     | None => false
     end.

(** The wait of the turn reports that requests are ready. *)
Definition tick_ready (tick : notifier_tick) : bool :=
  match tick_wait tick with
  | Ok WaitReady => true
  | _ => false
  end.

(** The turn neither ends the thread nor fails: a timeout, or ready
    requests whose notification succeeds. *)
Definition tick_continues (tick : notifier_tick) : Prop :=
  tick_populate tick = Ok () ∧ tick_stops tick = false ∧
  (tick_wait tick = Ok WaitTimeout ∨
   tick_wait tick = Ok WaitReady ∧ tick_run tick = Ok ()).

(** How often a call occurs among the calls of the thread. *)
Definition count_call (c : notifier_call) (calls : list notifier_call) : nat :=
  length (List.filter (λ c', match c, c' with
                             | NPopulate, NPopulate => true
                             | NWait, NWait => true
                             | NRunRequestNotifier, NRunRequestNotifier => true
                             | _, _ => false
                             end) calls).

(** ** More concrete inputs *)

(** A transport on which the stream receive fails: the peer is gone. *)
Definition sample_streams_reset : stream_env :=
  {| stream_send_post := Ok (); stream_send_done := Ok ();
     stream_recv_post := Ok ();
     stream_recv_done := Raise UCXConnectionResetError |}.
Definition sample_henv_reset : handshake_env :=
  {| urandom := sample_seed_B; streams := sample_streams_reset |}.

(** An endpoint whose transport endpoint has a pending error. *)
Definition sample_ucx_ep_error : UCXEndpoint :=
  {| handle := 4096; ep_error := Some UCXConnectionResetError;
     ep_alive := false |}.
Definition sample_endpoint_error : Endpoint :=
  Endpoint_init sample_ucx_ep_error (CtxRef 0) (Some sample_tags).

(** A tagged send and a tagged receive that succeed. *)
Definition sample_send_ok : send_env :=
  {| tag_send_post := Ok (); tag_send_during := id;
     tag_send_done := Ok PNone |}.
Definition sample_recv_queued : recv_env :=
  {| tag_probe_result := Ok true; tag_recv_post := Ok ();
     tag_recv_during := id; tag_recv_done := Ok (PBytes []);
     tag_recv_check_error := Ok (); tag_recv_py_buffers := PNone |}.

Definition sample_object : list Byte.byte :=
  [Byte.x68; Byte.x65; Byte.x6c; Byte.x6c; Byte.x6f].

(** Turns of the notifier thread: a timeout, ready requests with a
    message that is not ["shutdown"], and the shutdown message. *)
Definition sample_tick_timeout : notifier_tick :=
  {| tick_populate := Ok (); tick_wait := Ok WaitTimeout;
     tick_message := None; tick_run := Ok () |}.
Definition sample_tick_ready : notifier_tick :=
  {| tick_populate := Ok (); tick_wait := Ok WaitReady;
     tick_message := Some "ping"; tick_run := Ok () |}.
Definition sample_tick_shutdown : notifier_tick :=
  {| tick_populate := Ok (); tick_wait := Ok WaitReady;
     tick_message := Some "shutdown"; tick_run := Ok () |}.

(** A transport that listens on the port it is given, or on one it
    assigns for the port [0]. *)
Definition sample_listener_create (port : pyval) : result UCXListener :=
  match port with
  | PInt 0 => Ok {| listener_ip := "10.0.0.1"; listener_port := 49152 |}
  | PInt p => Ok {| listener_ip := "10.0.0.1"; listener_port := p |}
  | _ => Raise TypeError
  end.

(** * Properties *)

Ltac unfold_prog :=
  unfold mbind, mret, prog_bind, prog_ret, result_bind, result_ret, lift,
    call, await, raise, get, modify, emit, try_except,
    try_except_Exception, trace_of, state_of, outcome_of in *.

(** ** Byte encoding *)

Lemma Z_of_byte_of_Z z : Z_of_byte (byte_of_Z z) = z mod 256.
Proof.
  unfold Z_of_byte, byte_of_Z.
  assert (Hb : 0 ≤ z mod 256 < 256) by (apply Z.mod_pos_bound; lia).
  destruct (Byte.of_N (Z.to_N (z mod 256))) as [b|] eqn:E.
  - apply Byte.to_of_N in E. simpl. rewrite E. lia.
  - apply Byte.of_N_None_iff in E. lia.
Qed.

Lemma le_bytes_length n z : length (le_bytes n z) = n.
Proof. revert z. induction n as [|n IH]; intros z; simpl; [done|]. by rewrite IH. Qed.

Lemma le_value_le_bytes n z : le_value (le_bytes n z) = z mod 256 ^ Z.of_nat n.
Proof.
  revert z. induction n as [|n IH]; intros z.
  - simpl. by rewrite Z.mod_1_r.
  - cbn [le_bytes le_value]. rewrite IH, Z_of_byte_of_Z.
    rewrite Nat2Z.inj_succ, Z.pow_succ_r by lia.
    rewrite Z.rem_mul_r; [done | lia | apply Z.pow_pos_nonneg; lia].
Qed.

Lemma Ok_inj {A} (x y : A) : Ok x = Ok y → x = y.
Proof. congruence. Qed.

Section StructProps.
Context `{Externals}.

Lemma pack_Q_inv z bs :
  pack_Q z = Ok bs → 0 ≤ z < two64 ∧ length bs = 8%nat ∧ unpack_Q bs = z.
Proof.
  unfold pack_Q, unpack_Q. case_bool_decide as Hz; [|done].
  intros Heq. apply Ok_inj in Heq. subst bs. split; [done|].
  destruct native_big_endian.
  - rewrite rev_involutive, List.length_rev, le_bytes_length, le_value_le_bytes.
    split; [done|]. apply Z.mod_small. exact Hz.
  - rewrite le_bytes_length, le_value_le_bytes.
    split; [done|]. apply Z.mod_small. exact Hz.
Qed.

Lemma pack_Q_Ok z : 0 ≤ z < two64 → ∃ bs, pack_Q z = Ok bs.
Proof. intros Hz. unfold pack_Q. rewrite bool_decide_eq_true_2 by done. eauto. Qed.

Lemma struct_pack_QQQ_inv a b c buf :
  struct_pack_QQQ a b c = Ok buf →
  length buf = 24%nat ∧ struct_unpack_QQQ buf = Ok (a, b, c).
Proof.
  unfold struct_pack_QQQ, mbind, mret, result_bind, result_ret.
  destruct (pack_Q a) as [ba|] eqn:Ea; [|done].
  destruct (pack_Q b) as [bb|] eqn:Eb; [|done].
  destruct (pack_Q c) as [bc|] eqn:Ec; [|done].
  intros [= <-].
  apply pack_Q_inv in Ea as (_ & La & Ua).
  apply pack_Q_inv in Eb as (_ & Lb & Ub).
  apply pack_Q_inv in Ec as (_ & Lc & Uc).
  assert (Hlen : length (ba ++ bb ++ bc) = 24%nat)
    by (rewrite !length_app; lia).
  split; [done|].
  unfold struct_unpack_QQQ. rewrite bool_decide_eq_true_2 by done.
  rewrite take_app_length' by done.
  rewrite drop_app_length' by done.
  rewrite take_app_length' by done.
  replace 16%nat with (length ba + length bb)%nat by lia.
  rewrite app_assoc, drop_app_length' by (rewrite length_app; lia).
  rewrite take_ge by lia.
  by rewrite Ua, Ub, Uc.
Qed.

Lemma struct_pack_QQQ_Ok a b c :
  0 ≤ a < two64 → 0 ≤ b < two64 → 0 ≤ c < two64 →
  ∃ buf, struct_pack_QQQ a b c = Ok buf.
Proof.
  intros Ha Hb Hc.
  destruct (pack_Q_Ok a Ha) as [ba Ea], (pack_Q_Ok b Hb) as [bb Eb],
    (pack_Q_Ok c Hc) as [bc Ec].
  exists (ba ++ bb ++ bc).
  unfold struct_pack_QQQ, mbind, mret, result_bind, result_ret.
  by rewrite Ea, Eb, Ec.
Qed.
End StructProps.

(** ** The handshake *)

Section HandshakeProps.
Context `{Externals}.

(** What the check after the exchange makes of the received bytes. *)
Lemma exchange_peer_info_run {S} env msg_tag ctrl_tag listener (s : S)
    my_info peer :
  struct_pack_QQQ msg_tag ctrl_tag
    (hash64bits [PInt msg_tag; PInt ctrl_tag]) = Ok my_info →
  transfers_ok env peer →
  exchange_peer_info env msg_tag ctrl_tag listener s =
    (if listener then send_then_recv my_info else recv_then_send my_info,
     s,
     match struct_unpack_QQQ peer with
     | Ok (m, c, k) =>
         if bool_decide (hash64bits [PInt m; PInt c] ≠ k)
         then Raise RuntimeError
         else Ok (<["checksum" := k]> (<["ctrl_tag" := c]>
                  (<["msg_tag" := m]> ∅)))
     | Raise e => Raise e
     end).
Proof.
  intros Hpack (Hsp & Hsd & Hrp & Hrd).
  unfold exchange_peer_info, send_then_recv, recv_then_send. unfold_prog.
  rewrite Hpack, Hsp, Hsd, Hrp, Hrd.
  destruct listener; simpl;
    (destruct (struct_unpack_QQQ peer) as [[[m c] k]|e]; simpl; [|done]);
    case_bool_decide; done.
Qed.

(** Whatever the transport answers, the calls made are an initial part
    of the order fixed by the role. *)
Lemma exchange_peer_info_prefix {S} env msg_tag ctrl_tag listener (s : S)
    my_info :
  struct_pack_QQQ msg_tag ctrl_tag
    (hash64bits [PInt msg_tag; PInt ctrl_tag]) = Ok my_info →
  trace_of (exchange_peer_info env msg_tag ctrl_tag listener s)
    `prefix_of`
  (if listener then send_then_recv my_info else recv_then_send my_info).
Proof.
  intros Hpack.
  unfold exchange_peer_info, send_then_recv, recv_then_send. unfold_prog.
  rewrite Hpack.
  destruct listener, env as [[[]|] [[]|] [[]|] [peer|]]; simpl;
    try (eexists; reflexivity);
    (destruct (struct_unpack_QQQ peer) as [[[m c] k]|e]; simpl;
     [case_bool_decide; simpl|]; eexists; reflexivity).
Qed.

(** C1, as amended: the order of the two transfers is fixed by the role,
    with an [await] after each transfer and so between the two; the
    listener-side acceptor ([listener=True]) sends first and then
    receives, the connector receives first and then sends. No call is
    made out of that order, and when the transfers succeed all of them
    are made. *)
Theorem exchange_peer_info_order {S} env msg_tag ctrl_tag listener (s : S)
    my_info :
  struct_pack_QQQ msg_tag ctrl_tag
    (hash64bits [PInt msg_tag; PInt ctrl_tag]) = Ok my_info →
  let t := trace_of (exchange_peer_info env msg_tag ctrl_tag listener s) in
  let order :=
    if listener then send_then_recv my_info else recv_then_send my_info in
  t `prefix_of` order ∧
  ((∃ peer, transfers_ok env peer) → t = order).
Proof.
  intros Hpack t order. split.
  - by apply exchange_peer_info_prefix.
  - intros [peer Hok]. unfold t.
    by rewrite (exchange_peer_info_run _ _ _ _ _ _ _ Hpack Hok).
Qed.

(** C5: with the transfers done and 24 bytes received, the peer's tags
    are returned exactly when the received checksum is the hash of the
    two received tags; otherwise [RuntimeError] is raised and there is
    no result. *)
Theorem exchange_peer_info_checksum {S} env msg_tag ctrl_tag listener
    (s : S) my_info peer :
  struct_pack_QQQ msg_tag ctrl_tag
    (hash64bits [PInt msg_tag; PInt ctrl_tag]) = Ok my_info →
  transfers_ok env peer →
  length peer = 24%nat →
  let m := unpack_Q (take 8 peer) in
  let c := unpack_Q (take 8 (drop 8 peer)) in
  let k := unpack_Q (take 8 (drop 16 peer)) in
  let r := outcome_of (exchange_peer_info env msg_tag ctrl_tag listener s) in
  (k = hash64bits [PInt m; PInt c] →
     r = Ok (<["checksum" := k]> (<["ctrl_tag" := c]>
             (<["msg_tag" := m]> ∅)))) ∧
  (k ≠ hash64bits [PInt m; PInt c] → r = Raise RuntimeError) ∧
  ((∃ ret, r = Ok ret) ↔ k = hash64bits [PInt m; PInt c]).
Proof.
  intros Hpack Hok Hlen m c k r. unfold r.
  rewrite (exchange_peer_info_run _ _ _ _ _ _ _ Hpack Hok).
  unfold struct_unpack_QQQ. rewrite bool_decide_eq_true_2 by done.
  fold m c k. unfold outcome_of. simpl.
  case_bool_decide as Hk; repeat split; try done; try congruence.
  - intros [ret [=]].
  - intros _. eauto.
Qed.
End HandshakeProps.

(** ** Progress registration *)

Lemma filter_loop_le_1 (l : list ProgressTask) loop :
  NoDup (task_event_loop <$> l) →
  (length (List.filter (λ t, ProgressTask_eq t loop) l) ≤ 1)%nat.
Proof.
  induction l as [|t l IH]; simpl; [lia|].
  intros Hnd. apply NoDup_cons in Hnd as [Hnotin Hnd].
  specialize (IH Hnd). unfold ProgressTask_eq at 1.
  case_bool_decide as Ht; [|done]. simpl.
  enough (List.filter (λ t, ProgressTask_eq t loop) l = []) as -> by (simpl; lia).
  clear IH Hnd. induction l as [|u l IH]; simpl; [done|].
  apply not_elem_of_cons in Hnotin as [Hne Hnotin].
  unfold ProgressTask_eq at 1. rewrite bool_decide_eq_false_2 by congruence.
  by apply IH.
Qed.

Lemma existsb_filter_nil (l : list ProgressTask) loop :
  existsb (λ t, ProgressTask_eq t loop) l = false →
  List.filter (λ t, ProgressTask_eq t loop) l = [] ∧
  loop ∉ task_event_loop <$> l.
Proof.
  induction l as [|t l IH]; simpl; [intros _; split; [done|apply not_elem_of_nil]|].
  intros Hex. apply orb_false_iff in Hex as [Ht Hl]. rewrite Ht.
  destruct (IH Hl) as [-> Hnotin]. split; [done|].
  apply not_elem_of_cons. split; [|done].
  unfold ProgressTask_eq in Ht. apply bool_decide_eq_false in Ht. congruence.
Qed.

Lemma existsb_filter_pos (l : list ProgressTask) loop :
  existsb (λ t, ProgressTask_eq t loop) l = true →
  (1 ≤ length (List.filter (λ t, ProgressTask_eq t loop) l))%nat.
Proof.
  induction l as [|t l IH]; simpl; [done|].
  destruct (ProgressTask_eq t loop); simpl; [lia|]. exact IH.
Qed.

Section ContextProps.
Context `{Externals}.

Lemma continuous_ucx_progress_registered env event_loop self :
  existsb (λ t, ProgressTask_eq t (target_loop env event_loop))
    (progress_tasks self) = true →
  continuous_ucx_progress env event_loop self = ([], self, Ok ()).
Proof.
  intros Hin. unfold continuous_ucx_progress, target_loop in *. unfold_prog.
  by rewrite Hin.
Qed.

Lemma continuous_ucx_progress_fresh env event_loop self w :
  existsb (λ t, ProgressTask_eq t (target_loop env event_loop))
    (progress_tasks self) = false →
  progress_mode self ∈ valid_progress_modes →
  worker self = Some w →
  ∃ task,
    task_event_loop task = target_loop env event_loop ∧
    continuous_ucx_progress env event_loop self =
      ([], set_progress_tasks (progress_tasks self ++ [task]) self, Ok ()).
Proof.
  intros Hin Hmode Hw.
  unfold continuous_ucx_progress, target_loop in *. unfold_prog.
  rewrite Hin. unfold attr_worker. rewrite Hw.
  unfold valid_progress_modes in Hmode.
  repeat (apply elem_of_cons in Hmode as [->|Hmode]);
    [..|by apply elem_of_nil in Hmode];
    repeat (case_bool_decide; try done); simpl;
    eexists; (split; [|reflexivity]); reflexivity.
Qed.

Lemma continuous_ucx_progress_inv env event_loop self :
  ctx_inv self →
  ∃ self',
    continuous_ucx_progress env event_loop self = ([], self', Ok ()) ∧
    ctx_inv self' ∧ worker self' = worker self ∧
    existsb (λ t, ProgressTask_eq t (target_loop env event_loop))
      (progress_tasks self') = true.
Proof.
  intros (Hmode & [w Hw] & Hnd).
  destruct (existsb (λ t, ProgressTask_eq t (target_loop env event_loop))
              (progress_tasks self)) eqn:Hin.
  - exists self. split; [by apply continuous_ucx_progress_registered|].
    by repeat split; eauto.
  - destruct (continuous_ucx_progress_fresh _ _ _ _ Hin Hmode Hw)
      as (task & Hloop & ->).
    eexists. split; [done|]. repeat split; simpl; eauto.
    + rewrite fmap_app. apply NoDup_app. repeat split; [done| |].
      * intros x Hx Hx'. apply list_elem_of_singleton in Hx'. subst x.
        apply existsb_filter_nil in Hin as [_ Hnotin]. rewrite Hloop in Hx.
        done.
      * apply NoDup_singleton.
    + rewrite existsb_app. simpl. unfold ProgressTask_eq at 2.
      rewrite bool_decide_eq_true_2 by done. by rewrite orb_true_r.
Qed.

(** C4: registering progress is idempotent. On a context as [__init__]
    leaves it, [continuous_ucx_progress] succeeds, a second call with the
    same event loop is skipped and changes nothing, and exactly one
    progress binding is registered for that loop. *)
Theorem continuous_ucx_progress_idempotent env event_loop self :
  ctx_inv self →
  ∃ self',
    continuous_ucx_progress env event_loop self = ([], self', Ok ()) ∧
    continuous_ucx_progress env event_loop self' = ([], self', Ok ()) ∧
    progress_tasks (state_of (continuous_ucx_progress env event_loop self'))
      = progress_tasks self' ∧
    bindings_for (target_loop env event_loop) self' = 1%nat.
Proof.
  intros Hinv.
  destruct (continuous_ucx_progress_inv env event_loop self Hinv)
    as (self' & Hrun & (Hmode' & Hw' & Hnd') & _ & Hin').
  exists self'. split; [done|].
  rewrite (continuous_ucx_progress_registered _ _ _ Hin').
  repeat split.
  unfold bindings_for.
  pose proof (filter_loop_le_1 _ (target_loop env event_loop) Hnd').
  pose proof (existsb_filter_pos _ _ Hin'). lia.
Qed.
End ContextProps.

(** ** Construction of the context *)

Lemma loop_not_module_global : "loop" ∉ module_globals.
Proof. apply (bool_decide_unpack _). by vm_compute. Qed.

Section InitProps.
Context `{Externals}.

Lemma load_name_global locals name :
  name ∈ module_globals → load_name locals name = Ok ().
Proof.
  intros Hin. unfold load_name. rewrite bool_decide_eq_true_2; [done|].
  apply elem_of_app. right. apply elem_of_app. by left.
Qed.

Lemma load_name_loop : "loop" ∉ python_builtins →
  load_name ["self"] "loop" = Raise NameError.
Proof.
  intros Hb. unfold load_name. rewrite bool_decide_eq_false_2; [done|].
  intros Hin. apply elem_of_app in Hin as [Hin|Hin].
  - apply list_elem_of_singleton in Hin. done.
  - apply elem_of_app in Hin as [Hin|Hin]; [|done].
    by apply loop_not_module_global.
Qed.

(** With the notification enabled the method stops at the name [loop],
    after the queue is assigned and before the thread is. *)
Lemma start_notifier_thread_run env self w :
  worker self = Some w →
  python_future_enabled w = true →
  "loop" ∉ python_builtins →
  start_notifier_thread env self
    = ([], set_notifier_thread_q (Some []) self, Raise NameError).
Proof.
  intros Hw Hen Hb. unfold start_notifier_thread. unfold_prog.
  unfold attr_worker. rewrite Hw. simpl. rewrite Hen.
  rewrite ?load_name_global by (apply (bool_decide_unpack _); by vm_compute).
  rewrite load_name_loop by done. done.
Qed.

(** C9: when the worker reports Python-future notification enabled,
    [start_notifier_thread] raises [NameError] at the name [loop], which
    is neither a local of the method, nor a module global, nor a builtin;
    the thread object is not assigned and no thread is started. *)
Theorem start_notifier_thread_NameError env self w :
  worker self = Some w →
  python_future_enabled w = true →
  "loop" ∉ python_builtins →
  let r := start_notifier_thread env self in
  outcome_of r = Raise NameError ∧
  notifier_thread (state_of r) = notifier_thread self ∧
  EvThreadStart ∉ trace_of r.
Proof.
  intros Hw Hen Hb r. unfold r.
  rewrite (start_notifier_thread_run env self w Hw Hen Hb).
  repeat split. apply not_elem_of_nil.
Qed.

(** The constructor then fails the same way. *)
Lemma ApplicationContext_init_NameError env pm ed epf mode self :
  _check_progress_mode env pm = Ok mode →
  context_create env = Ok () → worker_create env = Ok () →
  worker_python_future env (_check_enable_delayed_submission env ed)
    (_check_enable_python_future env epf mode) = true →
  "loop" ∉ python_builtins →
  outcome_of (ApplicationContext_init env pm ed epf self) = Raise NameError.
Proof.
  intros Hmode Hctx Hwk Hen Hb. unfold ApplicationContext_init.
  unfold_prog. rewrite Hmode, Hctx, Hwk. simpl.
  match goal with |- context [start_notifier_thread env ?s] =>
    rewrite (start_notifier_thread_run env s _ eq_refl Hen Hb)
  end.
  done.
Qed.

Lemma _check_progress_mode_valid env pm mode :
  _check_progress_mode env pm = Ok mode → mode ∈ valid_progress_modes.
Proof.
  unfold _check_progress_mode.
  assert (Hv : ∀ s, (if existsb (λ m, bool_decide (s = m)) valid_progress_modes
                     then Ok s else Raise ValueError) = Ok mode →
                    mode ∈ valid_progress_modes).
  { intros s. destruct (existsb _ _) eqn:E; [|done]. intros [= ->].
    apply existsb_exists in E as (m & Hm & Heq).
    apply bool_decide_eq_true in Heq. subst m. by apply list_elem_of_In. }
  destruct pm; try done; [|apply Hv].
  destruct (environ env !! "UCXPY_PROGRESS_MODE"); apply Hv.
Qed.

(** A context constructed without the notifier thread satisfies the
    invariant of [continuous_ucx_progress]. *)
Lemma ApplicationContext_init_inv env pm ed epf mode self :
  _check_progress_mode env pm = Ok mode →
  context_create env = Ok () → worker_create env = Ok () →
  worker_python_future env (_check_enable_delayed_submission env ed)
    (_check_enable_python_future env epf mode) = false →
  let r := ApplicationContext_init env pm ed epf self in
  outcome_of r = Ok () ∧ ctx_inv (state_of r).
Proof.
  intros Hmode Hctx Hwk Hen r. unfold r, ApplicationContext_init.
  pose proof (_check_progress_mode_valid _ _ _ Hmode) as Hvalid.
  unfold start_notifier_thread. unfold_prog. rewrite Hmode, Hctx, Hwk. simpl.
  rewrite Hen. simpl.
  match goal with |- context [continuous_ucx_progress env None ?s] =>
    destruct (continuous_ucx_progress_inv env None s) as (s' & -> & Hinv & _)
  end; [|done].
  repeat split; simpl; eauto. apply NoDup_nil_2.
Qed.

(** Neither the notifier thread nor the progress registration constructs
    a worker. *)
Lemma start_notifier_thread_trace env self :
  trace_of (start_notifier_thread env self) = [] ∨
  trace_of (start_notifier_thread env self) = [EvThreadStart].
Proof.
  unfold start_notifier_thread. unfold_prog.
  destruct (attr_worker self) as [w|]; simpl; [|by left].
  destruct (python_future_enabled w); simpl; [|by left].
  repeat (match goal with |- context [load_name ?l ?n] =>
            destruct (load_name l n) as [[]|]; simpl; [|by left] end).
  by right.
Qed.

Lemma continuous_ucx_progress_trace env event_loop self :
  trace_of (continuous_ucx_progress env event_loop self) = [].
Proof.
  unfold continuous_ucx_progress. unfold_prog.
  destruct (existsb _ _); simpl; [done|].
  repeat (case_bool_decide; simpl); destruct (attr_worker self); done.
Qed.

(** The calls [__init__] makes on the transport library. *)
Lemma ApplicationContext_init_trace env pm ed epf self :
  ∃ rest,
    (∀ a b, EvCreateWorker a b ∉ rest) ∧
    (trace_of (ApplicationContext_init env pm ed epf self) = [] ∨
     trace_of (ApplicationContext_init env pm ed epf self)
       = [EvCreateContext] ∨
     ∃ mode, _check_progress_mode env pm = Ok mode ∧
       trace_of (ApplicationContext_init env pm ed epf self)
         = EvCreateContext
           :: EvCreateWorker (_check_enable_delayed_submission env ed)
                (_check_enable_python_future env epf mode)
           :: rest).
Proof.
  unfold ApplicationContext_init.
  destruct (_check_progress_mode env pm) as [mode|e] eqn:Hmode;
    [|exists []; split; [intros; apply not_elem_of_nil|left; unfold_prog;
       done]].
  destruct (context_create env) as [[]|e] eqn:Hctx;
    [|exists []; split; [intros; apply not_elem_of_nil|right; left;
       unfold_prog; done]].
  destruct (worker_create env) as [[]|e] eqn:Hwk;
    [|exists []; split; [intros; apply not_elem_of_nil|right; right;
       exists mode; split; [done|]; unfold_prog;
       done]].
  unfold_prog. simpl.
  match goal with |- context [start_notifier_thread env ?s] =>
    pose proof (start_notifier_thread_trace env s) as Hs;
    destruct (start_notifier_thread env s) as [[t s'] r]
  end.
  unfold_prog. simpl in Hs.
  assert (Ht : ∀ a b, EvCreateWorker a b ∉ t).
  { intros a b Hin. destruct Hs as [->| ->].
    - by apply elem_of_nil in Hin.
    - apply list_elem_of_singleton in Hin. done. }
  destruct r as [[]|e]; simpl.
  - pose proof (continuous_ucx_progress_trace env None s') as Hc.
    destruct (continuous_ucx_progress env None s') as [[t' s''] r'].
    unfold_prog. simpl in Hc. subst t'. simpl.
    exists (t ++ []). split; [intros a b; rewrite app_nil_r; apply Ht|].
    right. right. exists mode. done.
  - exists t. split; [done|]. right. right. exists mode. done.
Qed.

(** C10: [_check_enable_delayed_submission] evaluates to [None] on every
    input, although its body has computed the flag in its local variable;
    so whenever [__init__] constructs the worker, it passes
    [enable_delayed_submission=None], whatever the argument and the
    environment are, and it does construct it once the progress mode is
    valid and the transport context is created. *)
Theorem _check_enable_delayed_submission_None :
  (∀ env arg, _check_enable_delayed_submission env arg = PNone) ∧
  (∀ env arg, ∃ v,
     _check_enable_delayed_submission_body env arg = FallsOffEnd v ∧
     (arg = PNone → ∃ b, v = PBool b) ∧ (arg ≠ PNone → v = arg)) ∧
  (∀ env pm ed epf self a b,
     EvCreateWorker a b ∈ trace_of (ApplicationContext_init env pm ed epf self)
     → a = PNone) ∧
  (∀ env pm ed epf mode self,
     _check_progress_mode env pm = Ok mode →
     context_create env = Ok () →
     ∃ b, EvCreateWorker PNone b
            ∈ trace_of (ApplicationContext_init env pm ed epf self)).
Proof.
  split; [done|]. split; [|split].
  - intros env arg. unfold _check_enable_delayed_submission_body.
    eexists. split; [done|]. split.
    + intros ->. destruct (environ env !! _); eauto.
    + intros Hne. by destruct arg.
  - intros env pm ed epf self a b Hin.
    destruct (ApplicationContext_init_trace env pm ed epf self)
      as (rest & Hrest & [Ht|[Ht|(mode & _ & Ht)]]); rewrite Ht in Hin.
    + by apply elem_of_nil in Hin.
    + apply list_elem_of_singleton in Hin. done.
    + apply elem_of_cons in Hin as [Hin|Hin]; [done|].
      apply elem_of_cons in Hin as [Hin|Hin]; [by injection Hin|].
      by apply Hrest in Hin.
  - intros env pm ed epf mode self Hmode Hctx.
    destruct (ApplicationContext_init_trace env pm ed epf self)
      as (rest & _ & Ht).
    assert (Hlen : trace_of (ApplicationContext_init env pm ed epf self)
                   ≠ [] ∧
                   trace_of (ApplicationContext_init env pm ed epf self)
                   ≠ [EvCreateContext]).
    { unfold ApplicationContext_init. unfold_prog. rewrite Hmode, Hctx.
      simpl. destruct (worker_create env) as [[]|]; simpl; [|done].
      match goal with |- context [start_notifier_thread env ?s] =>
        destruct (start_notifier_thread env s) as [[t s'] [[]|]]
      end; simpl; [|done].
      by destruct (continuous_ucx_progress env None s') as [[t' s''] r']. }
    destruct Ht as [Ht|[Ht|(mode' & _ & Ht)]]; [by destruct Hlen..|].
    eexists. rewrite Ht. apply list_elem_of_further, list_elem_of_here.
Qed.
End InitProps.

(** ** Endpoints *)

Lemma abort_fields self :
  _ep (abort self) = None ∧ _ctx (abort self) = None ∧
  _tags (abort self) = _tags self ∧
  _finished_recv_count (abort self) = _finished_recv_count self.
Proof. done. Qed.

Lemma closed_abort self : closed (abort self) = true.
Proof. done. Qed.

(** [abort] may be called again, and [close] after it: neither raises, and
    the endpoint stays as the first [abort] left it. *)
Lemma abort_idempotent self : abort (abort self) = abort self.
Proof. done. Qed.

Lemma close_after_abort during self :
  close during (abort self) = ([], abort self, Ok ()).
Proof. done. Qed.

Section EndpointProps.
Context `{Externals}.

(** C7: on an open endpoint with negotiated tags, [send] and
    [send_multi] post the transfer with the negotiated message-send tag
    when [tag] is [None], with [hash64bits(msg_send, hash(tag))] when a
    tag is given and [force_tag] is false, and with the given tag as it
    is when [force_tag] is true. *)
Theorem send_wire_tag env buffer buffers tag force_tag self t :
  is_open self →
  tags_item self "msg_send" = Ok t →
  let posts w :=
    head (trace_of (send env buffer tag force_tag self))
      = Some (EvTagSend buffer w) ∧
    head (trace_of (send_multi env (BuffersSeq buffers) tag force_tag self))
      = Some (EvTagSendMulti buffers w) in
  (tag = PNone → posts (PInt t)) ∧
  (tag ≠ PNone → force_tag = false →
     posts (PInt (hash64bits [PInt t; PInt (py_hash tag)]))) ∧
  (tag ≠ PNone → force_tag = true → posts tag).
Proof.
  intros Hopen Htags posts. unfold posts.
  assert (Hrun : ∀ w,
    (match tag with
     | PNone => t' ← tags_item self "msg_send"; mret (PInt t')
     | _ => if negb force_tag
            then t' ← tags_item self "msg_send";
                 mret (PInt (hash64bits [PInt t'; PInt (py_hash tag)]))
            else mret tag
     end) = Ok w →
    head (trace_of (send env buffer tag force_tag self))
      = Some (EvTagSend buffer w) ∧
    head (trace_of (send_multi env (BuffersSeq buffers) tag force_tag self))
      = Some (EvTagSendMulti buffers w)).
  { intros w Hw. destruct Hopen as (ep & Hep & Herr & Halive).
    unfold send, send_multi, closed, attr_of_ep, raise_on_error.
    unfold_prog. rewrite Hep, Herr, Halive. cbn beta iota.
    rewrite Hw. simpl.
    rewrite Hep. simpl.
    split;
      (destruct (tag_send_post env) as [[]|e]; simpl;
       [destruct (tag_send_done env) as [v|e]; simpl; [done|]|]);
      (destruct (decide (e = UCXCanceled)); simpl; [|done]);
      rewrite ?Hep; try done;
      match goal with |- context [match _ep ?x with _ => _ end] =>
        destruct (_ep x) end; done. }
  repeat split; intros; subst; apply Hrun; unfold_prog;
    rewrite ?Htags; simpl; try done; destruct tag; done.
Qed.

(** C2, as amended: when a [send] or [send_multi] on an open endpoint
    ends with the cancellation signal, the cancellation is re-raised to
    the caller if the endpoint has been torn down locally by then (its
    handle is [None]); if the endpoint still has its handle the
    cancellation is swallowed and the call returns [None]. *)
Theorem send_canceled env buffer buffers tag force_tag self t :
  is_open self →
  tags_item self "msg_send" = Ok t →
  canceled env →
  let r := send env buffer tag force_tag self in
  let rm := send_multi env (BuffersSeq buffers) tag force_tag self in
  (_ep (state_of r) = None → outcome_of r = Raise UCXCanceled) ∧
  (_ep (state_of r) ≠ None → outcome_of r = Ok PNone) ∧
  (_ep (state_of rm) = None → outcome_of rm = Raise UCXCanceled) ∧
  (_ep (state_of rm) ≠ None → outcome_of rm = Ok PNone).
Proof.
  intros Hopen Htags Hc r rm. unfold r, rm.
  destruct Hopen as (ep & Hep & Herr & Halive).
  unfold send, send_multi, closed, attr_of_ep, raise_on_error.
  unfold_prog. rewrite Hep, Herr, Halive, Htags. cbn beta iota.
  destruct Hc as [Hpost|[Hpost Hdone]]; rewrite Hpost, ?Hdone;
    destruct tag, force_tag; simpl; rewrite ?Hep; simpl;
    repeat split; try done;
    match goal with |- context [match _ep ?x with _ => _ end] =>
      destruct (_ep x) eqn:E end; simpl; intros; congruence.
Qed.

(** C3 on the code: after [abort()] the endpoint is closed, but [send]
    raises [AttributeError] (from [self._ep.raise_on_error()] on [None])
    before it reaches its [closed()] check, and [recv] raises
    [AttributeError] (from [self._ctx.worker] on [None]), or [TypeError] or
    [KeyError] when its tag cannot be looked up; neither raises
    [UCXCloseError], and no transport call is made. *)
Theorem send_recv_after_abort env renv buffer tag force_tag self :
  let aborted := abort self in
  let rs := send env buffer tag force_tag aborted in
  let rr := recv renv buffer tag force_tag aborted in
  closed aborted = true ∧
  outcome_of rs = Raise AttributeError ∧ trace_of rs = [] ∧
  (∃ e, outcome_of rr = Raise e ∧
        (e = AttributeError ∨ e = TypeError ∨ e = KeyError)) ∧
  trace_of rr = [].
Proof.
  intros aborted rs rr. split; [done|]. split; [done|]. split; [done|].
  unfold rr, recv, aborted, tags_item, attr_of_ctx. unfold_prog. simpl.
  destruct (_tags self) as [tags|];
    [destruct (tags !! "msg_recv")|];
    destruct tag, force_tag; simpl; eauto 6.
Qed.

(** C8, as amended: [close_after_n_recv] makes [n] absolute by adding
    the finished-receive count unless [count_from_ep_creation] is set;
    it raises [UCXError] when a threshold is already armed; otherwise it
    aborts the endpoint at once, without suspending, when the absolute
    threshold equals the finished-receive count, arms the threshold when
    it is greater, and raises [UCXError] when it is smaller. So on an
    endpoint with 3 finished receives [close_after_n_recv(3,
    count_from_ep_creation=True)] aborts at once, and
    [close_after_n_recv(3)] arms the threshold 6. *)
Theorem close_after_n_recv_cases (n : Z) (count_from_ep_creation : bool)
    (self : Endpoint) :
  let absolute := if count_from_ep_creation then n
                  else n + _finished_recv_count self in
  let r := close_after_n_recv n count_from_ep_creation self in
  trace_of r = [] ∧
  (_close_after_n_recv self ≠ None →
     outcome_of r = Raise UCXError ∧ state_of r = self) ∧
  (_close_after_n_recv self = None →
     (absolute = _finished_recv_count self →
        outcome_of r = Ok () ∧ state_of r = abort self) ∧
     (absolute > _finished_recv_count self →
        outcome_of r = Ok () ∧
        state_of r = set_close_after_n_recv (Some absolute) self) ∧
     (absolute < _finished_recv_count self →
        outcome_of r = Raise UCXError ∧ state_of r = self)) ∧
  (_close_after_n_recv self = None → _finished_recv_count self = 3 →
     state_of (close_after_n_recv 3 true self) = abort self ∧
     state_of (close_after_n_recv 3 false self)
       = set_close_after_n_recv (Some 6) self).
Proof.
  intros absolute r. unfold r, absolute, close_after_n_recv. unfold_prog.
  destruct (_close_after_n_recv self) as [armed|] eqn:Harmed; simpl.
  - repeat split; done.
  - split; [by destruct count_from_ep_creation; simpl;
              repeat case_bool_decide|].
    split; [done|]. split.
    + intros _.
      destruct count_from_ep_creation; simpl;
        repeat split; intros; repeat case_bool_decide; simpl; try done; lia.
    + intros _ H3. rewrite H3. done.
Qed.
End EndpointProps.

(** ** The handshake on both sides *)

Lemma peer_info_items (m c k : Z) :
  let ret : gmap string Z :=
    <["checksum" := k]> (<["ctrl_tag" := c]> (<["msg_tag" := m]> ∅)) in
  dict_item ret "msg_tag" = Ok m ∧ dict_item ret "ctrl_tag" = Ok c.
Proof. unfold dict_item. by simplify_map_eq. Qed.

Lemma Endpoint_init_tags ep ref (ms mr cs cr : Z) :
  let self := Endpoint_init ep ref (Some
    (<["ctrl_recv" := cr]> (<["ctrl_send" := cs]>
     (<["msg_recv" := mr]> (<["msg_send" := ms]> ∅))))) in
  tags_item self "msg_send" = Ok ms ∧ tags_item self "msg_recv" = Ok mr ∧
  tags_item self "ctrl_send" = Ok cs ∧ tags_item self "ctrl_recv" = Ok cr.
Proof. unfold tags_item. simpl. by simplify_map_eq. Qed.

Section RoundTrip.
Context `{Externals}.

Lemma create_endpoint_run self_ref ienv ucx_ep henv self my_info peer :
  ctx_inv self →
  struct_pack_QQQ (local_msg_tag henv ucx_ep) (local_ctrl_tag henv ucx_ep)
    (hash64bits [PInt (local_msg_tag henv ucx_ep);
                 PInt (local_ctrl_tag henv ucx_ep)]) = Ok my_info →
  transfers_ok (streams henv) peer →
  ∃ self',
    create_endpoint self_ref ienv (Ok ucx_ep) henv self =
      ([EvCreateEndpoint; EvProgress] ++ recv_then_send my_info, self',
       match struct_unpack_QQQ peer with
       | Ok (m, c, k) =>
           if bool_decide (hash64bits [PInt m; PInt c] ≠ k)
           then Raise RuntimeError
           else Ok (Endpoint_init ucx_ep self_ref (Some
                 (<["ctrl_recv" := local_ctrl_tag henv ucx_ep]>
                  (<["ctrl_send" := c]>
                  (<["msg_recv" := local_msg_tag henv ucx_ep]>
                  (<["msg_send" := m]> ∅))))))
       | Raise e => Raise e
       end).
Proof.
  intros Hinv Hpack Hok.
  destruct (continuous_ucx_progress_inv ienv None self Hinv)
    as (self' & Hrun & (_ & [w Hw] & _) & _ & _).
  exists self'. unfold create_endpoint. unfold_prog.
  rewrite Hrun. unfold attr_worker. rewrite Hw. cbn beta iota.
  fold (local_msg_tag henv ucx_ep) (local_ctrl_tag henv ucx_ep).
  rewrite (exchange_peer_info_run _ _ _ _ _ _ _ Hpack Hok).
  destruct (struct_unpack_QQQ peer) as [[[m c] k]|e]; [|done].
  case_bool_decide; [done|].
  destruct (peer_info_items m c k) as [-> ->]. done.
Qed.

Lemma _listener_handler_coroutine_run {S} conn_request ctx henv
    func_is_coroutine func_outcome (s : S) my_info peer :
  struct_pack_QQQ (local_msg_tag henv conn_request)
    (local_ctrl_tag henv conn_request)
    (hash64bits [PInt (local_msg_tag henv conn_request);
                 PInt (local_ctrl_tag henv conn_request)]) = Ok my_info →
  transfers_ok (streams henv) peer →
  let run := _listener_handler_coroutine conn_request ctx henv
               func_is_coroutine func_outcome s in
  (∃ rest, trace_of run = send_then_recv my_info ++ rest ∧
           ∀ d, EvStreamSend d ∉ rest) ∧
  ∀ m c, struct_unpack_QQQ peer = Ok (m, c, hash64bits [PInt m; PInt c]) →
    delivered (trace_of run) =
      [Endpoint_init conn_request ctx (Some
         (<["ctrl_recv" := local_ctrl_tag henv conn_request]>
          (<["ctrl_send" := c]>
          (<["msg_recv" := local_msg_tag henv conn_request]>
          (<["msg_send" := m]> ∅)))))].
Proof.
  intros Hpack Hok run. unfold run, _listener_handler_coroutine.
  unfold_prog.
  fold (local_msg_tag henv conn_request) (local_ctrl_tag henv conn_request).
  rewrite (exchange_peer_info_run _ _ _ _ _ _ _ Hpack Hok).
  split.
  - destruct (struct_unpack_QQQ peer) as [[[m c] k]|e].
    + case_bool_decide.
      * exists []. split; [by rewrite app_nil_r|]. intros d. apply not_elem_of_nil.
      * destruct (peer_info_items m c k) as [-> ->].
        destruct func_is_coroutine; simpl; eexists; (split; [reflexivity|]);
          intros d Hd;
          repeat (apply elem_of_cons in Hd as [Hd|Hd]; [done|]);
          by apply elem_of_nil in Hd.
    + exists []. split; [by rewrite app_nil_r|]. intros d. apply not_elem_of_nil.
  - intros m c ->. rewrite bool_decide_eq_false_2 by (intros Hne; by apply Hne).
    destruct (peer_info_items m c (hash64bits [PInt m; PInt c])) as [-> ->].
    by destruct func_is_coroutine.
Qed.

Lemma sent_in_create_endpoint (my_info d : list Byte.byte) :
  EvStreamSend d ∈ [EvCreateEndpoint; EvProgress] ++ recv_then_send my_info →
  d = my_info.
Proof.
  unfold recv_then_send. simpl. intros Hd.
  repeat (apply elem_of_cons in Hd as [Hd|Hd]; [congruence|]).
  by apply elem_of_nil in Hd.
Qed.

Lemma sent_in_listener (my_info d : list Byte.byte) rest :
  (∀ d', EvStreamSend d' ∉ rest) →
  EvStreamSend d ∈ send_then_recv my_info ++ rest → d = my_info.
Proof.
  intros Hrest Hd. apply elem_of_app in Hd as [Hd|Hd]; [|by apply Hrest in Hd].
  unfold send_then_recv in Hd.
  repeat (apply elem_of_cons in Hd as [Hd|Hd]; [congruence|]).
  by apply elem_of_nil in Hd.
Qed.

Hypothesis hash64bits_range : ∀ args, 0 ≤ hash64bits args < two64.

(** C6: handshake round trip. A connects ([create_endpoint]) and B
    accepts ([_listener_handler_coroutine]); all stream transfers
    succeed, and each side receives the bytes the other side sent. Then
    both handshakes complete, A's endpoint is returned and B's is handed
    to the listener's callback; each side's receive tags are the tags it
    generated, and each side's send tags are the peer's receive tags, for
    message and for control tags. *)
Theorem handshake_round_trip {S} refA refB ienv ucxA ucxB henvA henvB ctxA
    func_is_coroutine func_outcome (sB : S) dataA dataB :
  ctx_inv ctxA →
  let runA := create_endpoint refA ienv (Ok ucxA) henvA ctxA in
  let runB := _listener_handler_coroutine ucxB refB henvB
                func_is_coroutine func_outcome sB in
  transfers_ok (streams henvA) dataB →
  transfers_ok (streams henvB) dataA →
  EvStreamSend dataA ∈ trace_of runA →
  EvStreamSend dataB ∈ trace_of runB →
  ∃ epA epB,
    outcome_of runA = Ok epA ∧ delivered (trace_of runB) = [epB] ∧
    tags_item epA "msg_recv" = Ok (local_msg_tag henvA ucxA) ∧
    tags_item epB "msg_recv" = Ok (local_msg_tag henvB ucxB) ∧
    tags_item epA "ctrl_recv" = Ok (local_ctrl_tag henvA ucxA) ∧
    tags_item epB "ctrl_recv" = Ok (local_ctrl_tag henvB ucxB) ∧
    tags_item epA "msg_send" = tags_item epB "msg_recv" ∧
    tags_item epB "msg_send" = tags_item epA "msg_recv" ∧
    tags_item epA "ctrl_send" = tags_item epB "ctrl_recv" ∧
    tags_item epB "ctrl_send" = tags_item epA "ctrl_recv".
Proof.
  intros Hinv runA runB HokA HokB HsentA HsentB.
  destruct (struct_pack_QQQ_Ok (local_msg_tag henvA ucxA)
              (local_ctrl_tag henvA ucxA)
              (hash64bits [PInt (local_msg_tag henvA ucxA);
                           PInt (local_ctrl_tag henvA ucxA)]))
    as [infoA HpackA]; [apply hash64bits_range..|].
  destruct (struct_pack_QQQ_Ok (local_msg_tag henvB ucxB)
              (local_ctrl_tag henvB ucxB)
              (hash64bits [PInt (local_msg_tag henvB ucxB);
                           PInt (local_ctrl_tag henvB ucxB)]))
    as [infoB HpackB]; [apply hash64bits_range..|].
  destruct (create_endpoint_run refA ienv ucxA henvA ctxA infoA dataB
              Hinv HpackA HokA) as (ctxA' & HrunA).
  destruct (_listener_handler_coroutine_run ucxB refB henvB
              func_is_coroutine func_outcome sB infoB dataA HpackB HokB)
    as [(rest & HtraceB & Hrest) HdelB].
  fold runA in HrunA. fold runB in HtraceB, HdelB.
  rewrite HrunA in HsentA. unfold trace_of in HsentA. simpl fst in HsentA.
  apply sent_in_create_endpoint in HsentA. subst dataA.
  rewrite HtraceB in HsentB.
  apply (sent_in_listener _ _ _ Hrest) in HsentB. subst dataB.
  apply struct_pack_QQQ_inv in HpackA as [_ HunA].
  apply struct_pack_QQQ_inv in HpackB as [_ HunB].
  rewrite (HdelB _ _ HunA). rewrite HrunA, HunB.
  rewrite bool_decide_eq_false_2 by (intros Hne; by apply Hne).
  eexists _, _. split; [reflexivity|]. split; [reflexivity|].
  edestruct Endpoint_init_tags as (-> & -> & -> & ->).
  edestruct Endpoint_init_tags as (-> & -> & -> & ->).
  repeat split.
Qed.
End RoundTrip.

(** * The properties on concrete inputs *)

Lemma sample_hash64bits_range args : 0 ≤ sample_hash64bits args < two64.
Proof. unfold sample_hash64bits. apply Z.mod_pos_bound. done. Qed.

Lemma loop_not_sample_builtin : "loop" ∉ sample_builtins.
Proof. apply (bool_decide_unpack _). by vm_compute. Qed.

Lemma sample_endpoint_open : is_open sample_endpoint.
Proof. exists sample_ucx_ep. by repeat split. Qed.

Lemma sample_ctx_inv python_future : ctx_inv (sample_ctx python_future).
Proof.
  repeat split.
  - apply list_elem_of_In. simpl. tauto.
  - by eexists.
  - apply NoDup_nil_2.
Qed.

(** The listener side of a handshake posts its send first, the connector
    its receive: neither does what C1 states. *)
Lemma exchange_peer_info_order_counterexample :
  let env := sample_streams (sample_info 5 6) in
  let acceptor :=
    trace_of (@exchange_peer_info sample_externals () env 3 4 true ()) in
  let connector :=
    trace_of (@exchange_peer_info sample_externals () env 3 4 false ()) in
  first_transfer acceptor = Some (EvStreamSend (sample_info 3 4)) ∧
  first_transfer connector = Some (EvStreamRecv 24) ∧
  ¬ (∃ d, acceptor = recv_then_send d) ∧
  ¬ (∃ d, connector = send_then_recv d).
Proof.
  repeat split; try (by vm_compute); intros [d Hd]; vm_compute in Hd;
    discriminate Hd.
Qed.

Lemma exchange_peer_info_order_witness :
  let env := sample_streams (sample_info 5 6) in
  let t := trace_of (@exchange_peer_info sample_externals () env 3 4 true ()) in
  @struct_pack_QQQ sample_externals 3 4 (sample_hash64bits [PInt 3; PInt 4])
    = Ok (sample_info 3 4) ∧
  t `prefix_of` send_then_recv (sample_info 3 4) ∧
  ((∃ peer, transfers_ok env peer) → t = send_then_recv (sample_info 3 4)).
Proof.
  split; [reflexivity|].
  apply (@exchange_peer_info_order sample_externals () _ 3 4 true ()).
  reflexivity.
Defined.

(** A canceled send is re-raised when the endpoint was aborted meanwhile
    and swallowed when the endpoint still has its handle: the opposite of
    what C2 states. *)
Lemma send_canceled_counterexample :
  let torn_down :=
    @send sample_externals sample_cancel_aborted (PBytes []) PNone false
      sample_endpoint in
  let untouched :=
    @send sample_externals sample_cancel_untouched (PBytes []) PNone false
      sample_endpoint in
  (_ep (state_of torn_down) = None ∧ ¬ (∃ v, outcome_of torn_down = Ok v)) ∧
  (_ep (state_of untouched) ≠ None ∧
   outcome_of untouched ≠ Raise UCXCanceled).
Proof.
  repeat split; try (by vm_compute).
  intros [v Hv]. vm_compute in Hv. discriminate Hv.
Qed.

Lemma send_canceled_witness :
  let r := @send sample_externals sample_cancel_aborted (PBytes []) PNone
             false sample_endpoint in
  let rm := @send_multi sample_externals sample_cancel_aborted
              (BuffersSeq [PBytes []]) PNone false sample_endpoint in
  is_open sample_endpoint ∧
  tags_item sample_endpoint "msg_send" = Ok 11 ∧
  canceled sample_cancel_aborted ∧
  (_ep (state_of r) = None → outcome_of r = Raise UCXCanceled) ∧
  (_ep (state_of r) ≠ None → outcome_of r = Ok PNone) ∧
  (_ep (state_of rm) = None → outcome_of rm = Raise UCXCanceled) ∧
  (_ep (state_of rm) ≠ None → outcome_of rm = Ok PNone).
Proof.
  split; [exact sample_endpoint_open|].
  split; [reflexivity|].
  split; [right; split; reflexivity|].
  apply (@send_canceled sample_externals sample_cancel_aborted (PBytes [])
           [PBytes []] PNone false sample_endpoint 11).
  - exact sample_endpoint_open.
  - reflexivity.
  - right. split; reflexivity.
Defined.

(** [send] and [recv] on the aborted sample endpoint. *)
Lemma send_recv_after_abort_example :
  outcome_of (@send sample_externals sample_cancel_untouched (PBytes [])
                PNone false (abort sample_endpoint)) = Raise AttributeError ∧
  outcome_of (@recv sample_externals sample_recv_env (PBytes []) PNone false
                (abort sample_endpoint)) = Raise AttributeError.
Proof. split; reflexivity. Qed.

Lemma continuous_ucx_progress_idempotent_witness :
  ctx_inv (sample_ctx false) ∧
  ∃ self',
    continuous_ucx_progress sample_init_env (Some 7%nat)
      (sample_ctx false) = ([], self', Ok ()) ∧
    continuous_ucx_progress sample_init_env (Some 7%nat)
      self' = ([], self', Ok ()) ∧
    progress_tasks
      (state_of (continuous_ucx_progress sample_init_env
                   (Some 7%nat) self')) = progress_tasks self' ∧
    bindings_for (target_loop sample_init_env (Some 7%nat)) self' = 1%nat.
Proof.
  split; [exact (sample_ctx_inv false)|].
  apply (continuous_ucx_progress_idempotent sample_init_env
           (Some 7%nat) (sample_ctx false)).
  exact (sample_ctx_inv false).
Defined.

Lemma exchange_peer_info_checksum_witness :
  let env := sample_streams (sample_info 5 6) in
  let peer := sample_info 5 6 in
  let m := @unpack_Q sample_externals (take 8 peer) in
  let c := @unpack_Q sample_externals (take 8 (drop 8 peer)) in
  let k := @unpack_Q sample_externals (take 8 (drop 16 peer)) in
  let r :=
    outcome_of (@exchange_peer_info sample_externals () env 3 4 false ()) in
  @struct_pack_QQQ sample_externals 3 4 (sample_hash64bits [PInt 3; PInt 4])
    = Ok (sample_info 3 4) ∧
  transfers_ok env peer ∧
  length peer = 24%nat ∧
  (k = sample_hash64bits [PInt m; PInt c] →
     r = Ok (<["checksum" := k]> (<["ctrl_tag" := c]>
             (<["msg_tag" := m]> ∅)))) ∧
  (k ≠ sample_hash64bits [PInt m; PInt c] → r = Raise RuntimeError) ∧
  ((∃ ret, r = Ok ret) ↔ k = sample_hash64bits [PInt m; PInt c]).
Proof.
  split; [reflexivity|].
  split; [repeat split|].
  split; [reflexivity|].
  apply (@exchange_peer_info_checksum sample_externals () _ 3 4 false ()
           (sample_info 3 4) (sample_info 5 6)).
  - reflexivity.
  - repeat split.
  - reflexivity.
Defined.

(** A record with one byte changed in transit is rejected. *)
Lemma exchange_peer_info_tampered_example :
  length sample_tampered = 24%nat ∧
  outcome_of (@exchange_peer_info sample_externals ()
                (sample_streams sample_tampered) 3 4 false ())
    = Raise RuntimeError.
Proof. split; by vm_compute. Qed.

Lemma handshake_round_trip_witness :
  let runA := @create_endpoint sample_externals (CtxRef 0) sample_init_env
                (Ok sample_ucx_ep) sample_henv_A (sample_ctx false) in
  let runB := @_listener_handler_coroutine sample_externals () sample_ucx_ep_B
                (CtxRef 1) sample_henv_B true (Ok ()) () in
  let dataA := sample_info_of sample_seed_A sample_ucx_ep in
  let dataB := sample_info_of sample_seed_B sample_ucx_ep_B in
  (∀ args, 0 ≤ sample_hash64bits args < two64) ∧
  ctx_inv (sample_ctx false) ∧
  transfers_ok (streams sample_henv_A) dataB ∧
  transfers_ok (streams sample_henv_B) dataA ∧
  EvStreamSend dataA ∈ trace_of runA ∧
  EvStreamSend dataB ∈ trace_of runB ∧
  ∃ epA epB,
    outcome_of runA = Ok epA ∧ delivered (trace_of runB) = [epB] ∧
    tags_item epA "msg_recv"
      = Ok (@local_msg_tag sample_externals sample_henv_A sample_ucx_ep) ∧
    tags_item epB "msg_recv"
      = Ok (@local_msg_tag sample_externals sample_henv_B sample_ucx_ep_B) ∧
    tags_item epA "ctrl_recv"
      = Ok (@local_ctrl_tag sample_externals sample_henv_A sample_ucx_ep) ∧
    tags_item epB "ctrl_recv"
      = Ok (@local_ctrl_tag sample_externals sample_henv_B sample_ucx_ep_B) ∧
    tags_item epA "msg_send" = tags_item epB "msg_recv" ∧
    tags_item epB "msg_send" = tags_item epA "msg_recv" ∧
    tags_item epA "ctrl_send" = tags_item epB "ctrl_recv" ∧
    tags_item epB "ctrl_send" = tags_item epA "ctrl_recv".
Proof.
  assert (HsentA : EvStreamSend (sample_info_of sample_seed_A sample_ucx_ep)
            ∈ trace_of (@create_endpoint sample_externals (CtxRef 0)
                          sample_init_env (Ok sample_ucx_ep) sample_henv_A
                          (sample_ctx false))).
  { vm_compute. repeat constructor. }
  assert (HsentB : EvStreamSend (sample_info_of sample_seed_B sample_ucx_ep_B)
            ∈ trace_of (@_listener_handler_coroutine sample_externals ()
                          sample_ucx_ep_B (CtxRef 1) sample_henv_B true
                          (Ok ()) ())).
  { vm_compute. repeat constructor. }
  split; [exact sample_hash64bits_range|].
  split; [exact (sample_ctx_inv false)|].
  split; [repeat split|]. split; [repeat split|].
  split; [exact HsentA|]. split; [exact HsentB|].
  apply (@handshake_round_trip sample_externals sample_hash64bits_range ()
           (CtxRef 0) (CtxRef 1) sample_init_env sample_ucx_ep sample_ucx_ep_B
           sample_henv_A sample_henv_B (sample_ctx false) true (Ok ()) ()
           (sample_info_of sample_seed_A sample_ucx_ep)
           (sample_info_of sample_seed_B sample_ucx_ep_B)).
  - exact (sample_ctx_inv false).
  - repeat split.
  - repeat split.
  - exact HsentA.
  - exact HsentB.
Defined.

Lemma send_wire_tag_witness :
  let posts tag force_tag w :=
    head (trace_of (@send sample_externals sample_cancel_untouched
                      (PBytes []) tag force_tag sample_endpoint))
      = Some (EvTagSend (PBytes []) w) ∧
    head (trace_of (@send_multi sample_externals sample_cancel_untouched
                      (BuffersSeq [PBytes []]) tag force_tag sample_endpoint))
      = Some (EvTagSendMulti [PBytes []] w) in
  is_open sample_endpoint ∧
  tags_item sample_endpoint "msg_send" = Ok 11 ∧
  posts PNone false (PInt 11) ∧
  posts (PInt 5) false (PInt (sample_hash64bits [PInt 11; PInt 5])) ∧
  posts (PInt 5) true (PInt 5).
Proof.
  split; [exact sample_endpoint_open|]. split; [reflexivity|].
  pose proof (λ tag force_tag,
    @send_wire_tag sample_externals sample_cancel_untouched (PBytes [])
      [PBytes []] tag force_tag sample_endpoint 11 sample_endpoint_open
      eq_refl) as Hw.
  split; [|split].
  - apply (Hw PNone false). reflexivity.
  - apply (Hw (PInt 5) false); [discriminate|reflexivity].
  - apply (Hw (PInt 5) true); [discriminate|reflexivity].
Defined.

(** On an endpoint with three finished receives, [close_after_n_recv(3)]
    does not abort: it arms the threshold 6 and the endpoint keeps its
    handle, where C8 states a synchronous abort. *)
Lemma close_after_n_recv_counterexample :
  let r := close_after_n_recv 3 false sample_endpoint_3 in
  _finished_recv_count sample_endpoint_3 = 3 ∧
  _close_after_n_recv sample_endpoint_3 = None ∧
  outcome_of r = Ok () ∧
  state_of r ≠ abort sample_endpoint_3 ∧
  _ep (state_of r) = Some sample_ucx_ep ∧
  closed (state_of r) = false ∧
  _close_after_n_recv (state_of r) = Some 6.
Proof. repeat split; by vm_compute. Qed.

Lemma close_after_n_recv_cases_witness :
  _close_after_n_recv sample_endpoint_3 = None ∧
  _finished_recv_count sample_endpoint_3 = 3 ∧
  state_of (close_after_n_recv 3 true sample_endpoint_3)
    = abort sample_endpoint_3 ∧
  state_of (close_after_n_recv 3 false sample_endpoint_3)
    = set_close_after_n_recv (Some 6) sample_endpoint_3.
Proof.
  split; [reflexivity|]. split; [reflexivity|].
  apply (close_after_n_recv_cases 3 true sample_endpoint_3); reflexivity.
Defined.

Lemma start_notifier_thread_NameError_witness :
  let r := @start_notifier_thread sample_externals sample_init_env
             (sample_ctx true) in
  worker (sample_ctx true) = Some (sample_worker true) ∧
  python_future_enabled (sample_worker true) = true ∧
  ("loop" ∉ sample_builtins) ∧
  outcome_of r = Raise NameError ∧
  notifier_thread (state_of r) = notifier_thread (sample_ctx true) ∧
  EvThreadStart ∉ trace_of r.
Proof.
  split; [reflexivity|]. split; [reflexivity|].
  split; [exact loop_not_sample_builtin|].
  apply (@start_notifier_thread_NameError sample_externals sample_init_env
           (sample_ctx true) (sample_worker true)).
  - reflexivity.
  - reflexivity.
  - exact loop_not_sample_builtin.
Defined.

Lemma _check_enable_delayed_submission_None_witness :
  _check_progress_mode sample_init_env PNone = Ok "thread" ∧
  context_create sample_init_env = Ok () ∧
  ∃ b, EvCreateWorker PNone b
         ∈ trace_of (@ApplicationContext_init sample_externals
                       sample_init_env PNone (PBool true) PNone
                       blank_ApplicationContext).
Proof.
  split; [reflexivity|]. split; [reflexivity|].
  apply (proj2 (proj2 (proj2 (@_check_enable_delayed_submission_None
                                sample_externals)))
           sample_init_env PNone (PBool true) PNone "thread"
           blank_ApplicationContext); reflexivity.
Defined.

(** * Further properties of the handshake *)

Lemma le_value_bounds bs : 0 ≤ le_value bs < 256 ^ Z.of_nat (length bs).
Proof.
  induction bs as [|b bs IH]; [simpl; lia|].
  cbn [le_value length]. rewrite Nat2Z.inj_succ, Z.pow_succ_r by lia.
  assert (0 ≤ Z_of_byte b < 256).
  { unfold Z_of_byte. pose proof (Byte.to_N_bounded b). lia. }
  lia.
Qed.

Lemma byte_of_Z_of_byte b z : byte_of_Z (Z_of_byte b + 256 * z) = b.
Proof.
  unfold byte_of_Z, Z_of_byte.
  pose proof (Byte.to_N_bounded b) as Hb.
  replace ((Z.of_N (Byte.to_N b) + 256 * z) mod 256)
    with (Z.of_N (Byte.to_N b)).
  - by rewrite N2Z.id, Byte.of_to_N.
  - replace (256 * z) with (z * 256) by lia. rewrite Z.mod_add by lia.
    symmetry. apply Z.mod_small. lia.
Qed.

Lemma le_bytes_le_value bs : le_bytes (length bs) (le_value bs) = bs.
Proof.
  induction bs as [|b bs IH]; [done|].
  cbn [le_value length le_bytes]. rewrite byte_of_Z_of_byte. f_equal.
  replace ((Z_of_byte b + 256 * le_value bs) `div` 256) with (le_value bs);
    [exact IH|].
  assert (0 ≤ Z_of_byte b < 256).
  { unfold Z_of_byte. pose proof (Byte.to_N_bounded b). lia. }
  replace (256 * le_value bs) with (le_value bs * 256) by lia.
  rewrite Z.div_add by lia.
  rewrite (Z.div_small (Z_of_byte b)) by lia. lia.
Qed.

Lemma three_fields (buf : list Byte.byte) :
  length buf = 24%nat →
  buf = take 8 buf ++ take 8 (drop 8 buf) ++ take 8 (drop 16 buf).
Proof.
  intros Hlen.
  rewrite (take_ge (drop 16 buf)) by (rewrite length_drop; lia).
  replace (drop 16 buf) with (drop 8 (drop 8 buf)) by by rewrite drop_drop.
  by rewrite !take_drop.
Qed.

Section MoreStructProps.
Context `{Externals}.

Lemma unpack_Q_range bs : length bs = 8%nat → 0 ≤ unpack_Q bs < two64.
Proof.
  intros Hlen. unfold unpack_Q.
  destruct native_big_endian.
  - pose proof (le_value_bounds (rev bs)) as Hb.
    by rewrite List.length_rev, Hlen in Hb.
  - pose proof (le_value_bounds bs) as Hb. by rewrite Hlen in Hb.
Qed.

Lemma pack_unpack_Q bs : length bs = 8%nat → pack_Q (unpack_Q bs) = Ok bs.
Proof.
  intros Hlen. unfold pack_Q.
  rewrite bool_decide_eq_true_2 by by apply unpack_Q_range.
  unfold unpack_Q. f_equal. destruct native_big_endian.
  - rewrite <- (List.length_rev bs) in Hlen. rewrite <- Hlen.
    by rewrite le_bytes_le_value, rev_involutive.
  - rewrite <- Hlen. apply le_bytes_le_value.
Qed.

Lemma unpack_Q_inj bs1 bs2 :
  length bs1 = 8%nat → length bs2 = 8%nat →
  unpack_Q bs1 = unpack_Q bs2 → bs1 = bs2.
Proof.
  intros H1 H2 Heq. apply Ok_inj.
  by rewrite <- (pack_unpack_Q bs1), <- (pack_unpack_Q bs2), Heq.
Qed.

Lemma struct_pack_QQQ_fit a b c :
  (∃ buf, struct_pack_QQQ a b c = Ok buf) ↔
  0 ≤ a < two64 ∧ 0 ≤ b < two64 ∧ 0 ≤ c < two64.
Proof.
  split.
  - intros [buf Hp]. revert Hp.
    unfold struct_pack_QQQ, mbind, mret, result_bind, result_ret.
    destruct (pack_Q a) as [ba|] eqn:Ea; [|done].
    destruct (pack_Q b) as [bb|] eqn:Eb; [|done].
    destruct (pack_Q c) as [bc|] eqn:Ec; [|done].
    intros _.
    apply pack_Q_inv in Ea as (? & _). apply pack_Q_inv in Eb as (? & _).
    apply pack_Q_inv in Ec as (? & _). done.
  - intros (Ha & Hb & Hc). by apply struct_pack_QQQ_Ok.
Qed.

Lemma struct_pack_QQQ_unfit a b c :
  ¬ (0 ≤ a < two64 ∧ 0 ≤ b < two64 ∧ 0 ≤ c < two64) →
  struct_pack_QQQ a b c = Raise StructError.
Proof.
  intros Hn. unfold struct_pack_QQQ, mbind, mret, result_bind, result_ret.
  unfold pack_Q. repeat case_bool_decide; try done. by destruct Hn.
Qed.

(** X1: the record of 24 bytes and the three 64-bit fields determine each
    other. Packing three values that fit and unpacking the bytes gives the
    values back; unpacking any 24 bytes and packing the fields gives the
    bytes back; and a value that does not fit 64 bits cannot be packed. *)
Theorem struct_QQQ_round_trip :
  (∀ a b c buf, struct_pack_QQQ a b c = Ok buf →
     length buf = 24%nat ∧ struct_unpack_QQQ buf = Ok (a, b, c)) ∧
  (∀ buf, length buf = 24%nat →
     ∃ a b c, struct_unpack_QQQ buf = Ok (a, b, c) ∧
              struct_pack_QQQ a b c = Ok buf) ∧
  (∀ a b c, ¬ (0 ≤ a < two64 ∧ 0 ≤ b < two64 ∧ 0 ≤ c < two64) →
     struct_pack_QQQ a b c = Raise StructError) ∧
  (∀ buf, length buf ≠ 24%nat → struct_unpack_QQQ buf = Raise StructError).
Proof.
  split; [exact struct_pack_QQQ_inv|]. split; [|split].
  - intros buf Hlen. unfold struct_unpack_QQQ.
    rewrite bool_decide_eq_true_2 by done. eexists _, _, _. split; [done|].
    unfold struct_pack_QQQ, mbind, mret, result_bind, result_ret.
    rewrite !pack_unpack_Q
      by (rewrite ?length_take, ?length_drop; lia).
    f_equal. symmetry. by apply three_fields.
  - exact struct_pack_QQQ_unfit.
  - intros buf Hlen. unfold struct_unpack_QQQ.
    by rewrite bool_decide_eq_false_2.
Qed.
End MoreStructProps.

Section MoreHandshakeProps.
Context `{Externals}.

Lemma exchange_peer_info_state {S} env msg_tag ctrl_tag listener (s : S) :
  state_of (exchange_peer_info env msg_tag ctrl_tag listener s) = s.
Proof.
  unfold exchange_peer_info. unfold_prog.
  destruct (struct_pack_QQQ _ _ _) as [my_info|]; simpl; [|done].
  destruct listener, env as [[[]|] [[]|] [[]|] [peer|]]; simpl; try done;
    (destruct (struct_unpack_QQQ peer) as [[[m c] k]|e]; simpl; [|done]);
    by case_bool_decide.
Qed.

(** A result comes only out of four successful transfers and a record
    that unpacks with the right checksum. *)
Lemma exchange_peer_info_Ok_inv {S} env msg_tag ctrl_tag listener (s : S)
    ret :
  outcome_of (exchange_peer_info env msg_tag ctrl_tag listener s) = Ok ret →
  tags_fit msg_tag ctrl_tag ∧
  ∃ peer m c,
    transfers_ok env peer ∧
    struct_unpack_QQQ peer = Ok (m, c, hash64bits [PInt m; PInt c]) ∧
    ret = peer_info_dict m c (hash64bits [PInt m; PInt c]).
Proof.
  unfold exchange_peer_info, transfers_ok, tags_fit, peer_info_dict.
  unfold_prog.
  destruct (struct_pack_QQQ _ _ _) as [my_info|] eqn:Hpack; simpl; [|done].
  intros Hret. split.
  { apply struct_pack_QQQ_fit. eauto. }
  destruct listener, env as [[[]|] [[]|] [[]|] [peer|]]; simpl in *;
    try done;
    (destruct (struct_unpack_QQQ peer) as [[[m c] k]|e] eqn:Hun;
       simpl in *; [|done]);
    (case_bool_decide as Hk; simpl in *; [done|]);
    (assert (k = hash64bits [PInt m; PInt c])
       by (destruct (decide (hash64bits [PInt m; PInt c] = k)); done));
    subst k; exists peer, m, c; repeat split; congruence.
Qed.

(** X2: [exchange_peer_info] accepts what the peer's own
    [exchange_peer_info] sends. When the bytes received are the record the
    peer packed for its 64-bit tags, the result is exactly the peer's two
    tags with their checksum, in either role. *)
Theorem exchange_peer_info_accepts_peer {S} env msg_tag ctrl_tag listener
    (s : S) peer_msg_tag peer_ctrl_tag peer :
  tags_fit msg_tag ctrl_tag →
  struct_pack_QQQ peer_msg_tag peer_ctrl_tag
    (hash64bits [PInt peer_msg_tag; PInt peer_ctrl_tag]) = Ok peer →
  transfers_ok env peer →
  outcome_of (exchange_peer_info env msg_tag ctrl_tag listener s)
    = Ok (peer_info_dict peer_msg_tag peer_ctrl_tag
            (hash64bits [PInt peer_msg_tag; PInt peer_ctrl_tag])).
Proof.
  intros (Hm & Hc & Hk) Hpeer Hok.
  destruct (struct_pack_QQQ_Ok _ _ _ Hm Hc Hk) as [my_info Hpack].
  rewrite (exchange_peer_info_run _ _ _ _ _ _ _ Hpack Hok).
  apply struct_pack_QQQ_inv in Hpeer as [_ ->].
  unfold outcome_of. simpl.
  by rewrite bool_decide_eq_false_2 by (intros Hne; by apply Hne).
Qed.

(** X3: a record whose checksum field was changed is rejected. If the 24
    bytes received agree with a record packed by a peer in the 16 bytes of
    the two tags and differ from it in the 8 bytes of the checksum, the
    handshake raises [RuntimeError]. *)
Theorem exchange_peer_info_checksum_tampered {S} env msg_tag ctrl_tag
    listener (s : S) peer_msg_tag peer_ctrl_tag good received :
  tags_fit msg_tag ctrl_tag →
  struct_pack_QQQ peer_msg_tag peer_ctrl_tag
    (hash64bits [PInt peer_msg_tag; PInt peer_ctrl_tag]) = Ok good →
  transfers_ok env received →
  length received = 24%nat →
  take 16 received = take 16 good →
  drop 16 received ≠ drop 16 good →
  outcome_of (exchange_peer_info env msg_tag ctrl_tag listener s)
    = Raise RuntimeError.
Proof.
  intros (Hm & Hc & Hk) Hgood Hok Hlen Htags Hck.
  destruct (struct_pack_QQQ_Ok _ _ _ Hm Hc Hk) as [my_info Hpack].
  rewrite (exchange_peer_info_run _ _ _ _ _ _ _ Hpack Hok).
  apply struct_pack_QQQ_inv in Hgood as [Hglen Hgood].
  unfold struct_unpack_QQQ in *.
  rewrite bool_decide_eq_true_2 in Hgood by done.
  rewrite bool_decide_eq_true_2 by done.
  injection Hgood as Hgm Hgc Hgk.
  assert (H8 : take 8 received = take 8 good).
  { change (take 8 received) with (take (8 `min` 16) received).
    change (take 8 good) with (take (8 `min` 16) good).
    by rewrite <- !take_take, Htags. }
  assert (H16 : take 8 (drop 8 received) = take 8 (drop 8 good)).
  { rewrite !take_drop_commute. simpl. by rewrite Htags. }
  rewrite H8, H16, Hgm, Hgc. unfold outcome_of. simpl.
  rewrite bool_decide_eq_true_2; [done|].
  intros Heq. apply Hck.
  rewrite <- (take_ge (drop 16 received) 8), <- (take_ge (drop 16 good) 8)
    by (rewrite length_drop; lia).
  apply unpack_Q_inj; [rewrite length_take, length_drop; lia..|].
  by rewrite Hgk.
Qed.

(** X4: [exchange_peer_info] returns a result only after a complete
    exchange. If it returns, its own tags fit the record, all four stream
    calls succeeded, and the bytes received unpack to two tags followed by
    their hash; the result holds exactly these. It never changes the
    object it runs on. *)
Theorem exchange_peer_info_Ok_only_after_exchange {S} env msg_tag ctrl_tag
    listener (s : S) ret :
  outcome_of (exchange_peer_info env msg_tag ctrl_tag listener s) = Ok ret →
  tags_fit msg_tag ctrl_tag ∧
  state_of (exchange_peer_info env msg_tag ctrl_tag listener s) = s ∧
  ∃ peer m c,
    transfers_ok env peer ∧
    struct_unpack_QQQ peer = Ok (m, c, hash64bits [PInt m; PInt c]) ∧
    ret = peer_info_dict m c (hash64bits [PInt m; PInt c]).
Proof.
  intros Hret.
  destruct (exchange_peer_info_Ok_inv _ _ _ _ _ _ Hret) as [Hfit Hpeer].
  split; [done|]. split; [apply exchange_peer_info_state|done].
Qed.

(** X5: tags that do not fit 64 bits stop the handshake before it touches
    the transport: [exchange_peer_info] raises [struct.error] and makes no
    stream call. *)
Theorem exchange_peer_info_unfit {S} env msg_tag ctrl_tag listener (s : S) :
  ¬ tags_fit msg_tag ctrl_tag →
  exchange_peer_info env msg_tag ctrl_tag listener s
    = ([], s, Raise StructError).
Proof.
  intros Hn. unfold exchange_peer_info. unfold_prog.
  by rewrite struct_pack_QQQ_unfit.
Qed.
End MoreHandshakeProps.

(** * Further properties of endpoint creation *)

Lemma bindings_for_registered loop self :
  NoDup (task_event_loop <$> progress_tasks self) →
  existsb (λ t, ProgressTask_eq t loop) (progress_tasks self) = true →
  bindings_for loop self = 1%nat.
Proof.
  intros Hnd Hin. unfold bindings_for.
  pose proof (filter_loop_le_1 _ loop Hnd).
  pose proof (existsb_filter_pos _ _ Hin). lia.
Qed.

Section CreationProps.
Context `{Externals}.

Lemma exchange_peer_info_no_callback {S} env msg_tag ctrl_tag listener
    (s : S) :
  delivered (trace_of (exchange_peer_info env msg_tag ctrl_tag listener s))
    = [].
Proof.
  unfold exchange_peer_info. unfold_prog.
  destruct (struct_pack_QQQ _ _ _) as [my_info|]; simpl; [|done].
  destruct listener, env as [[[]|] [[]|] [[]|] [peer|]]; simpl; try done;
    (destruct (struct_unpack_QQQ peer) as [[[m c] k]|e]; simpl; [|done]);
    by case_bool_decide.
Qed.


(** X6: the listener's callback runs only after a successful handshake.
    When the handshake of an accepted connection raises, for a failed
    transfer or a wrong checksum, [_listener_handler_coroutine] raises the
    same exception, the callback is not called and no [Endpoint] is
    built. *)
Theorem _listener_handler_coroutine_failed {S} conn_request ctx henv
    func_is_coroutine func_outcome (s : S) e :
  outcome_of (exchange_peer_info (streams henv)
                (local_msg_tag henv conn_request)
                (local_ctrl_tag henv conn_request) true s) = Raise e →
  let run := _listener_handler_coroutine conn_request ctx henv
               func_is_coroutine func_outcome s in
  outcome_of run = Raise e ∧ delivered (trace_of run) = [] ∧
  state_of run = s.
Proof.
  intros Hhs run. unfold run, _listener_handler_coroutine.
  unfold local_msg_tag, local_ctrl_tag in Hhs.
  pose proof (exchange_peer_info_no_callback (streams henv)
    (hash64bits [PStr "msg_tag"; PBytes (urandom henv);
                 PInt (handle conn_request)])
    (hash64bits [PStr "ctrl_tag"; PBytes (urandom henv);
                 PInt (handle conn_request)]) true s) as Hnc.
  pose proof (exchange_peer_info_state (streams henv)
    (hash64bits [PStr "msg_tag"; PBytes (urandom henv);
                 PInt (handle conn_request)])
    (hash64bits [PStr "ctrl_tag"; PBytes (urandom henv);
                 PInt (handle conn_request)]) true s) as Hst.
  unfold_prog.
  destruct (exchange_peer_info _ _ _ _ _) as [[t s'] r].
  simpl in *. subst r s'. done.
Qed.


Lemma continuous_ucx_progress_current ienv self :
  ctx_inv self →
  ∃ self',
    continuous_ucx_progress ienv None self = ([], self', Ok ()) ∧
    ctx_inv self' ∧ is_Some (worker self') ∧
    bindings_for (get_event_loop ienv) self' = 1%nat.
Proof.
  intros Hinv.
  destruct (continuous_ucx_progress_inv ienv None self Hinv)
    as (self' & Hrun & Hinv' & _ & Hin).
  exists self'. split; [done|]. split; [done|].
  destruct Hinv' as (? & ? & Hnd). split; [done|].
  by apply bindings_for_registered.
Qed.

(** X8: every way of creating an endpoint or a listener registers
    progress for the current event loop first, and nothing after that
    touches the context. On a context as [__init__] leaves it,
    [create_endpoint], [create_endpoint_from_worker_address] and
    [create_listener] end, whether they succeed or raise, with the context
    that [continuous_ucx_progress()] alone gives: the invariant holds and
    the current loop has exactly one progress binding. *)
Theorem creation_registers_progress self_ref ienv endpoint_create henv
    listener_create port self :
  ctx_inv self →
  let registered := state_of (continuous_ucx_progress ienv None self) in
  ctx_inv registered ∧
  bindings_for (get_event_loop ienv) registered = 1%nat ∧
  state_of (create_endpoint self_ref ienv endpoint_create henv self)
    = registered ∧
  state_of (create_endpoint_from_worker_address self_ref ienv
              endpoint_create self) = registered ∧
  state_of (create_listener ienv listener_create port self) = registered.
Proof.
  intros Hinv registered. unfold registered.
  destruct (continuous_ucx_progress_current ienv self Hinv)
    as (self' & Hrun & Hinv' & [w Hw] & Hb).
  rewrite Hrun. unfold state_of at 1 2. simpl.
  split; [done|]. split; [done|]. split; [|split].
  - unfold create_endpoint. unfold_prog. rewrite Hrun.
    unfold attr_worker. rewrite Hw. simpl.
    destruct endpoint_create as [ucx_ep|]; simpl; [|done].
    match goal with |- context [exchange_peer_info ?a ?b ?c ?d self'] =>
      pose proof (exchange_peer_info_state a b c d self') as Hst;
      destruct (exchange_peer_info a b c d self') as [[t s'] r]
    end.
    unfold state_of in Hst. simpl in Hst. subst s'.
    destruct r as [ret|]; simpl; [|done].
    destruct (dict_item ret "msg_tag"); simpl; [|done].
    by destruct (dict_item ret "ctrl_tag").
  - unfold create_endpoint_from_worker_address. unfold_prog. rewrite Hrun.
    unfold attr_worker. rewrite Hw. simpl.
    by destruct endpoint_create.
  - unfold create_listener. unfold_prog. rewrite Hrun.
    unfold attr_worker. rewrite Hw.
    destruct port; simpl; try done;
      by destruct (listener_create _).
Qed.
End CreationProps.

Section ConnectProps.
Context `{Externals}.

(** X9: [create_endpoint] exposes no partial endpoint. If
    [UCXEndpoint.create] raises, [create_endpoint] raises the same
    exception without any stream call; if the handshake raises, it raises
    the same exception; it returns an endpoint only when the handshake
    returned, and that endpoint is new: it holds the transport endpoint and
    the context, its counters are zero and no threshold is armed. *)
Theorem create_endpoint_all_or_nothing self_ref ienv endpoint_create henv
    self :
  ctx_inv self →
  let registered := state_of (continuous_ucx_progress ienv None self) in
  let run := create_endpoint self_ref ienv endpoint_create henv self in
  (∀ e, endpoint_create = Raise e →
     outcome_of run = Raise e ∧ trace_of run = [EvCreateEndpoint]) ∧
  (∀ ucx_ep e, endpoint_create = Ok ucx_ep →
     outcome_of (exchange_peer_info (streams henv)
                   (local_msg_tag henv ucx_ep) (local_ctrl_tag henv ucx_ep)
                   false registered) = Raise e →
     outcome_of run = Raise e) ∧
  (∀ ep, outcome_of run = Ok ep →
     ∃ ucx_ep ret,
       endpoint_create = Ok ucx_ep ∧
       outcome_of (exchange_peer_info (streams henv)
                     (local_msg_tag henv ucx_ep) (local_ctrl_tag henv ucx_ep)
                     false registered) = Ok ret ∧
       _ep ep = Some ucx_ep ∧ _ctx ep = Some self_ref ∧
       _send_count ep = 0 ∧ _recv_count ep = 0 ∧
       _finished_recv_count ep = 0 ∧ _close_after_n_recv ep = None ∧
       _shutting_down_peer ep = false).
Proof.
  intros Hinv registered run. unfold registered, run.
  destruct (continuous_ucx_progress_current ienv self Hinv)
    as (self' & Hrun & _ & [w Hw] & _).
  unfold create_endpoint, local_msg_tag, local_ctrl_tag. unfold_prog.
  rewrite Hrun. unfold attr_worker. rewrite Hw. simpl.
  split; [|split].
  - by intros e ->.
  - intros ucx_ep e -> Hhs. simpl.
    destruct (exchange_peer_info _ _ _ _ _) as [[t s'] r].
    simpl in Hhs. by subst r.
  - intros ep. destruct endpoint_create as [ucx_ep|]; simpl; [|done].
    destruct (exchange_peer_info _ _ _ _ _) as [[t s'] r] eqn:Hhs.
    destruct r as [ret|]; simpl; [|done].
    destruct (dict_item ret "msg_tag"); simpl; [|done].
    destruct (dict_item ret "ctrl_tag"); simpl; [|done].
    intros Hep. apply Ok_inj in Hep. subst ep.
    exists ucx_ep, ret. rewrite Hhs. by repeat split.
Qed.

(** X10: an endpoint created from a worker address has no negotiated
    tags. On it [send] (while it is open) and [recv] raise [TypeError]
    unless a tag is given with [force_tag=True]: no transfer is posted and
    no counter changes. With a tag and [force_tag=True], [send] posts the
    transfer with that tag. *)
Theorem untagged_endpoint_needs_forced_tag self_ref ienv ucx_ep self env renv
    buffer tag force_tag ep :
  ctx_inv self →
  outcome_of (create_endpoint_from_worker_address self_ref ienv (Ok ucx_ep)
                self) = Ok ep →
  ep_error ucx_ep = None → ep_alive ucx_ep = true →
  _tags ep = None ∧
  (tag = PNone ∨ force_tag = false →
     send env buffer tag force_tag ep = ([], ep, Raise TypeError) ∧
     recv renv buffer tag force_tag ep = ([], ep, Raise TypeError)) ∧
  (tag ≠ PNone → force_tag = true →
     head (trace_of (send env buffer tag force_tag ep))
       = Some (EvTagSend buffer tag)).
Proof.
  intros Hinv Hcreate Herr Halive.
  destruct (continuous_ucx_progress_current ienv self Hinv)
    as (self' & Hrun & _ & [w Hw] & _).
  revert Hcreate. unfold create_endpoint_from_worker_address. unfold_prog.
  rewrite Hrun. unfold attr_worker. rewrite Hw. simpl. intros [= <-].
  split; [done|].
  unfold send, recv, closed, attr_of_ep, raise_on_error, tags_item.
  unfold_prog. simpl. rewrite Herr, Halive. simpl. split.
  - intros [-> | ->]; [done|]. by destruct tag.
  - intros Htag ->. destruct tag; try done; simpl;
      (destruct (tag_send_post env) as [[]|e]; simpl;
       [destruct (tag_send_done env) as [v|e]; simpl; [done|]|]);
      (destruct (decide (e = UCXCanceled)); simpl; [|done]); try done;
      match goal with |- context [match _ep ?x with _ => _ end] =>
        destruct (_ep x) end; done.
Qed.
End ConnectProps.

(** * Further properties of endpoints *)

(** ** Programs that keep a property of their object *)

Lemma preserves_ret {S A} (P : S → Prop) (a : A) : preserves P (mret a).
Proof. by intros s. Qed.

Lemma preserves_raise {S A} (P : S → Prop) e : preserves P (@raise S A e).
Proof. by intros s. Qed.

Lemma preserves_lift {S A} (P : S → Prop) (r : result A) :
  preserves P (lift r).
Proof. by intros s. Qed.

Lemma preserves_call {S A} (P : S → Prop) ev (r : result A) :
  preserves P (call ev r).
Proof. by intros s. Qed.

Lemma preserves_emit {S} (P : S → Prop) ev : preserves P (emit ev).
Proof. by intros s. Qed.

Lemma preserves_get {S} (P : S → Prop) : preserves P get.
Proof. by intros s. Qed.

Lemma preserves_modify {S} (P : S → Prop) (f : S → S) :
  (∀ s, P s → P (f s)) → preserves P (modify f).
Proof. intros Hf s. apply Hf. Qed.

Lemma preserves_await {S A} (P : S → Prop) (during : S → S) (r : result A) :
  (∀ s, P s → P (during s)) → preserves P (await during r).
Proof. intros Hf s. apply Hf. Qed.

Lemma preserves_bind {S A B} (P : S → Prop) (m : prog S A)
    (f : A → prog S B) :
  preserves P m → (∀ a, preserves P (f a)) → preserves P (m ≫= f).
Proof.
  intros Hm Hf s Hs. specialize (Hm s Hs). unfold_prog.
  destruct (m s) as [[t s'] [a|e]]; simpl in *; [|done].
  specialize (Hf a s' Hm). unfold_prog.
  by destruct (f a s') as [[t' s''] r].
Qed.

Lemma preserves_try_except {S A} (P : S → Prop) (body : prog S A) cls
    (handler : exn → prog S A) :
  preserves P body → (∀ e, preserves P (handler e)) →
  preserves P (try_except body cls handler).
Proof.
  intros Hm Hf s Hs. specialize (Hm s Hs). unfold_prog.
  destruct (body s) as [[t s'] [a|e]]; simpl in *; [done|].
  destruct (decide (e = cls)); [|done].
  specialize (Hf e s' Hm). unfold_prog.
  by destruct (handler e s') as [[t' s''] r].
Qed.

Create HintDb preserves.
#[export] Hint Resolve preserves_ret preserves_raise preserves_lift
  preserves_call preserves_emit preserves_get preserves_modify
  preserves_await preserves_bind preserves_try_except : preserves.

Ltac preserves_step :=
  match goal with
  | |- preserves _ (if ?b then _ else _) => destruct b
  | |- preserves _ (match ?x with _ => _ end) => destruct x
  | |- preserves _ (mbind _ _) => apply preserves_bind; [|intros ?]
  | |- preserves _ (try_except _ _ _) =>
      apply preserves_try_except; [|intros ?]
  | |- preserves _ (mret _) => apply preserves_ret
  | |- preserves _ (raise _) => apply preserves_raise
  | |- preserves _ (lift _) => apply preserves_lift
  | |- preserves _ (call _ _) => apply preserves_call
  | |- preserves _ (emit _) => apply preserves_emit
  | |- preserves _ get => apply preserves_get
  | |- preserves _ (modify _) => apply preserves_modify
  | |- preserves _ (await _ _) => apply preserves_await
  end.

Lemma linked_abort self : linked (abort self).
Proof. by split. Qed.

Ltac keep_linked :=
  first
    [ assumption
    | by intros; apply linked_abort
    | by intros ? ?; unfold linked in *; simpl in * ].

Section InvariantProps.
Context `{Externals}.

(** X11: every method of an endpoint keeps its handle and its context
    together: if the endpoint has its context exactly when it has its
    handle, and the tasks that run while a method is suspended keep that,
    then it holds again when [send], [send_multi], [recv], [recv_multi],
    [close_after_n_recv] or [close] is over, however the method ends; and
    [abort] establishes it. *)
Theorem endpoint_methods_keep_linked env renv during buffer buffers tag
    force_tag n count_from_ep_creation :
  (∀ s, linked s → linked (tag_send_during env s)) →
  (∀ s, linked s → linked (tag_recv_during renv s)) →
  (∀ s, linked s → linked (during s)) →
  preserves linked (send env buffer tag force_tag) ∧
  preserves linked (send_multi env buffers tag force_tag) ∧
  preserves linked (recv renv buffer tag force_tag) ∧
  preserves linked (recv_multi renv tag force_tag) ∧
  preserves linked (close_after_n_recv n count_from_ep_creation) ∧
  preserves linked (close during) ∧
  (∀ s, linked (abort s)).
Proof.
  intros Hs Hr Hd.
  assert (Hthr : preserves linked close_if_n_recv_reached).
  { unfold close_if_n_recv_reached. repeat preserves_step; keep_linked. }
  assert (H1 : preserves linked (send env buffer tag force_tag)).
  { unfold send. repeat preserves_step; keep_linked. }
  assert (H2 : preserves linked (send_multi env buffers tag force_tag)).
  { unfold send_multi. repeat preserves_step; keep_linked. }
  assert (H3 : preserves linked (recv renv buffer tag force_tag)).
  { unfold recv. repeat preserves_step; keep_linked. }
  assert (H4 : preserves linked (recv_multi renv tag force_tag)).
  { unfold recv_multi. repeat preserves_step; keep_linked. }
  assert (H5 : preserves linked (close_after_n_recv n count_from_ep_creation)).
  { unfold close_after_n_recv. repeat preserves_step; keep_linked. }
  assert (H6 : preserves linked (close during)).
  { unfold close. repeat preserves_step; keep_linked. }
  repeat (split; [assumption|]). apply linked_abort.
Qed.
End InvariantProps.

Section SendProps.
Context `{Externals}.

(** X12: a send that is refused leaves no trace. When the endpoint has a
    pending error, [send] and [send_multi] raise that error; when it has
    none but is not alive, they raise [UCXCloseError]; in both cases
    nothing is posted and the endpoint, its send counter included, is
    unchanged. The pending error comes before the closed check. *)
Theorem send_refused env buffer buffers tag force_tag self ep :
  _ep self = Some ep →
  (∀ e, ep_error ep = Some e →
     send env buffer tag force_tag self = ([], self, Raise e) ∧
     send_multi env buffers tag force_tag self = ([], self, Raise e)) ∧
  (ep_error ep = None → ep_alive ep = false →
     send env buffer tag force_tag self = ([], self, Raise UCXCloseError) ∧
     send_multi env buffers tag force_tag self
       = ([], self, Raise UCXCloseError)).
Proof.
  intros Hep.
  unfold send, send_multi, closed, attr_of_ep, raise_on_error. unfold_prog.
  rewrite Hep. split.
  - by intros e ->.
  - by intros -> ->.
Qed.

(** What an admitted [send] does, step by step. *)
Lemma send_admitted env buffer tag force_tag self t :
  is_open self →
  tags_item self "msg_send" = Ok t →
  let counted := set_send_count (_send_count self + 1) self in
  let w := wire_tag t tag force_tag in
  send env buffer tag force_tag self =
    match tag_send_post env with
    | Raise e =>
        ([EvTagSend buffer w], counted,
         if decide (e = UCXCanceled) then Ok PNone else Raise e)
    | Ok _ =>
        let after := tag_send_during env counted in
        ([EvTagSend buffer w; EvAwait], after,
         match tag_send_done env with
         | Ok v => Ok v
         | Raise e =>
             if decide (e = UCXCanceled)
             then match _ep after with
                  | None => Raise e
                  | Some _ => Ok PNone
                  end
             else Raise e
         end)
    end.
Proof.
  intros (ep & Hep & Herr & Halive) Htags counted w.
  unfold counted, w, wire_tag.
  unfold send, closed, attr_of_ep, raise_on_error. unfold_prog.
  rewrite Hep, Herr, Halive, Htags. cbn beta iota.
  destruct tag, force_tag; simpl; rewrite ?Hep; simpl;
    (destruct (tag_send_post env) as [[]|e]; simpl;
     [destruct (tag_send_done env) as [v|e]; simpl; [done|]|]);
    (destruct (decide (e = UCXCanceled)); simpl; [|done]);
    rewrite ?Hep; try done;
    match goal with |- context [match _ep ?x with _ => _ end] =>
      destruct (_ep x) end; done.
Qed.

(** X13: [_send_count] counts the sends that were admitted, not those
    that succeeded. On an open endpoint with negotiated tags, [send] has
    raised the counter by one before the transfer is posted: when posting
    fails the endpoint is left with the counter raised, and when the
    caller is suspended the other tasks already see the raised counter,
    whatever the outcome of the transfer is. *)
Theorem send_counts_admitted env buffer tag force_tag self t :
  is_open self →
  tags_item self "msg_send" = Ok t →
  let counted := set_send_count (_send_count self + 1) self in
  let r := send env buffer tag force_tag self in
  (∀ e, tag_send_post env = Raise e →
     state_of r = counted ∧ trace_of r = [EvTagSend buffer
                                            (wire_tag t tag force_tag)]) ∧
  (tag_send_post env = Ok () →
     state_of r = tag_send_during env counted) ∧
  (∀ e, tag_send_done env = Raise e → e ≠ UCXCanceled →
     tag_send_post env = Ok () → outcome_of r = Raise e).
Proof.
  intros Hopen Htags counted r. unfold r, counted.
  rewrite (send_admitted _ _ _ _ _ _ Hopen Htags).
  split; [|split].
  - by intros e ->.
  - by intros ->.
  - intros e -> Hne ->. simpl. by destruct (decide (e = UCXCanceled)).
Qed.

(** X14: two sends behind [send_obj]. On an open endpoint with negotiated
    tags, [send_obj] first sends 8 bytes that decode to the byte length of
    the object. If that send raises, the object is never posted. If it
    returns and the endpoint is still open with the same tag, the object
    is posted next under the same wire tag, and these are the only two
    tagged sends. *)
Theorem send_obj_size_then_object env_size env_obj obj tag self t :
  is_open self →
  tags_item self "msg_send" = Ok t →
  Z.of_nat (length obj) < two64 →
  let size := array_Q (Z.of_nat (length obj)) in
  let w := wire_tag t tag false in
  let first := send env_size (PBytes size) tag false self in
  let r := send_obj env_size env_obj obj tag self in
  unpack_Q size = Z.of_nat (length obj) ∧
  (∀ e, outcome_of first = Raise e →
     outcome_of r = Raise e ∧ tag_sends (trace_of r) = [(PBytes size, w)]) ∧
  (∀ v, outcome_of first = Ok v →
     is_open (state_of first) →
     tags_item (state_of first) "msg_send" = Ok t →
     tag_sends (trace_of r) = [(PBytes size, w); (PBytes obj, w)]).
Proof.
  intros Hopen Htags Hlen size w first r.
  split.
  { unfold size, unpack_Q, array_Q. destruct native_big_endian;
      rewrite ?rev_involutive, le_value_le_bytes; apply Z.mod_small;
      unfold two64 in Hlen; simpl; lia. }
  unfold r, send_obj, first in *. unfold_prog.
  pose proof (send_admitted env_size (PBytes size) tag false self t Hopen
                Htags) as Hfirst.
  fold size. simpl in Hfirst.
  destruct (send env_size (PBytes size) tag false self) as [[t1 s1] r1].
  assert (Hsends1 : tag_sends t1 = [(PBytes size, w)]).
  { destruct (tag_send_post env_size) as [[]|e];
      injection Hfirst as -> _ _; done. }
  simpl. split.
  - intros e ->. done.
  - intros v -> Hopen1 Htags1.
    pose proof (send_admitted env_obj (PBytes obj) tag false s1 t Hopen1
                  Htags1) as Hsecond.
    simpl in Hsecond.
    destruct (send env_obj (PBytes obj) tag false s1) as [[t2 s2] r2].
    assert (Hsends2 : tag_sends t2 = [(PBytes obj, w)]).
    { destruct (tag_send_post env_obj) as [[]|e];
        injection Hsecond as -> _ _; done. }
    assert (Happ : ∀ a b, tag_sends (a ++ b) = tag_sends a ++ tag_sends b)
      by (intros; apply omap_app).
    destruct r2 as [v2|e2]; simpl; rewrite ?Happ, Hsends1, Hsends2; simpl;
      rewrite ?app_nil_r; done.
Qed.
End SendProps.

Section RecvProps.
Context `{Externals}.

(** The start of [recv]: the tag is worked out and probed, and the error
    state of the endpoint is only looked at when no message is queued. *)
Lemma recv_checks renv buffer tag force_tag self ep t :
  _ep self = Some ep → _ctx self ≠ None →
  tags_item self "msg_recv" = Ok t →
  let w := wire_tag t tag force_tag in
  recv renv buffer tag force_tag self =
    match tag_probe_result renv with
    | Raise e => ([EvTagProbe w], self, Raise e)
    | Ok probed =>
        match (if probed then Ok ()
               else match ep_error ep with
                    | Some e => Raise e
                    | None => if ep_alive ep then Ok ()
                              else Raise UCXCloseError
                    end) with
        | Raise e => ([EvTagProbe w], self, Raise e)
        | Ok _ =>
            let posted := set_recv_count (_recv_count self + 1) self in
            match tag_recv_post renv with
            | Raise e => ([EvTagProbe w; EvTagRecv buffer w], posted, Raise e)
            | Ok _ =>
                let after := tag_recv_during renv posted in
                match tag_recv_done renv with
                | Raise e =>
                    ([EvTagProbe w; EvTagRecv buffer w; EvAwait], after,
                     Raise e)
                | Ok v =>
                    ([EvTagProbe w; EvTagRecv buffer w; EvAwait],
                     after_threshold_check
                       (set_finished_recv_count
                          (_finished_recv_count after + 1) after),
                     Ok v)
                end
            end
        end
    end.
Proof.
  intros Hep Hctx Htags w. unfold w, wire_tag, after_threshold_check.
  unfold recv, close_if_n_recv_reached, closed, attr_of_ep, attr_of_ctx,
    raise_on_error.
  unfold_prog. rewrite Hep, Htags.
  destruct (_ctx self) as [c|]; [|done].
  destruct tag, force_tag; simpl;
    (destruct (tag_probe_result renv) as [[]|]; simpl; [| |done];
     [|destruct (ep_error ep); simpl; [done|];
       destruct (ep_alive ep); simpl; [|done]]);
    (destruct (tag_recv_post renv) as [[]|]; simpl; [|done]);
    (destruct (tag_recv_done renv) as [v|]; simpl; [|done]);
    (destruct (_close_after_n_recv (tag_recv_during renv _)); simpl;
     [|done]);
    by case_bool_decide.
Qed.

(** X15: [recv] probes before it checks for errors. On an endpoint that
    has its handle and negotiated tags, when a message with the wire tag is
    already queued, [recv] posts the receive even if the endpoint has a
    pending error or is no longer alive; only when no message is queued
    does it raise the pending error, or [UCXCloseError] for an endpoint
    that is not alive, and then nothing is posted and no counter moves. *)
Theorem recv_probes_before_error_check renv buffer tag force_tag self ep t :
  _ep self = Some ep → _ctx self ≠ None →
  tags_item self "msg_recv" = Ok t →
  let w := wire_tag t tag force_tag in
  let r := recv renv buffer tag force_tag self in
  (tag_probe_result renv = Ok true →
     take 2 (trace_of r) = [EvTagProbe w; EvTagRecv buffer w]) ∧
  (tag_probe_result renv = Ok false → ∀ e, ep_error ep = Some e →
     r = ([EvTagProbe w], self, Raise e)) ∧
  (tag_probe_result renv = Ok false → ep_error ep = None →
     ep_alive ep = false → r = ([EvTagProbe w], self, Raise UCXCloseError)).
Proof.
  intros Hep Hctx Htags w r. unfold r, w.
  rewrite (recv_checks _ _ _ _ _ _ _ Hep Hctx Htags).
  split; [|split].
  - intros ->. simpl. destruct (tag_recv_post renv) as [[]|]; simpl; [|done].
    by destruct (tag_recv_done renv).
  - by intros -> e ->.
  - by intros -> -> ->.
Qed.

(** X16: a receive is counted as finished only when it completes, and the
    threshold acts after the result is there. For an admitted receive
    whose transfer is posted: when the request completes, the result is
    returned, the finished counter of the endpoint as the other tasks left
    it is raised by one, and the endpoint is aborted exactly if an armed
    threshold is reached by the new count; when the request raises, the
    exception goes to the caller, the receive stays counted as posted, the
    finished counter does not move and the threshold is not looked at. *)
Theorem recv_completion renv buffer tag force_tag self ep t :
  _ep self = Some ep → _ctx self ≠ None →
  tags_item self "msg_recv" = Ok t →
  recv_admitted renv ep →
  tag_recv_post renv = Ok () →
  let after :=
    tag_recv_during renv (set_recv_count (_recv_count self + 1) self) in
  let finished :=
    set_finished_recv_count (_finished_recv_count after + 1) after in
  let r := recv renv buffer tag force_tag self in
  (∀ v, tag_recv_done renv = Ok v →
     outcome_of r = Ok v ∧
     state_of r = after_threshold_check finished ∧
     (∀ n, _close_after_n_recv after = Some n →
        n ≤ _finished_recv_count after + 1 → state_of r = abort finished) ∧
     (∀ n, _close_after_n_recv after = Some n →
        _finished_recv_count after + 1 < n → state_of r = finished) ∧
     (_close_after_n_recv after = None → state_of r = finished)) ∧
  (∀ e, tag_recv_done renv = Raise e →
     outcome_of r = Raise e ∧ state_of r = after).
Proof.
  intros Hep Hctx Htags Hadm Hpost after finished r.
  unfold r, finished, after.
  rewrite (recv_checks _ _ _ _ _ _ _ Hep Hctx Htags), Hpost.
  destruct Hadm as [-> | (-> & -> & ->)]; simpl;
    (split; [intros v ->|by intros e ->]);
    (split; [done|]); (split; [done|]);
    unfold after_threshold_check; simpl;
    (split; [|split]);
    try (intros n -> Hn; simpl;
         first [by rewrite bool_decide_eq_true_2 by lia
               |by rewrite bool_decide_eq_false_2 by lia]);
    by intros ->.
Qed.

(** Where [recv] can leave the endpoint: as it was, with the receive
    counted as posted, as the other tasks left it, or with the receive
    finished and the threshold checked; it returns only in the last
    case. *)
Lemma recv_states renv buffer tag force_tag self :
  let posted := set_recv_count (_recv_count self + 1) self in
  let after := tag_recv_during renv posted in
  let finished :=
    set_finished_recv_count (_finished_recv_count after + 1) after in
  let r := recv renv buffer tag force_tag self in
  ((state_of r = self ∨ state_of r = posted ∨ state_of r = after) ∧
   ∃ e, outcome_of r = Raise e) ∨
  (state_of r = after_threshold_check finished ∧ ∃ v, outcome_of r = Ok v).
Proof.
  intros posted after finished r.
  unfold r, finished, after, posted, after_threshold_check.
  unfold recv, close_if_n_recv_reached, attr_of_ctx, attr_of_ep,
    raise_on_error, closed.
  unfold_prog.
  destruct (tags_item self "msg_recv"), tag, force_tag; simpl;
    try (left; split; [by left|by eexists]);
    (destruct (_ctx self); simpl;
     [|left; split; [by left|by eexists]]);
    (destruct (tag_probe_result renv) as [[]|]; simpl;
     [| |left; split; [by left|by eexists]]);
    (destruct (_ep self) as [ep|]; simpl;
     [|left; split; [by left + (right; by left)|by eexists]]);
    try (destruct (ep_error ep); simpl;
         [left; split; [by left|by eexists]|];
         destruct (ep_alive ep); simpl;
         [|left; split; [by left|by eexists]]);
    (destruct (tag_recv_post renv) as [[]|]; simpl;
     [|left; split; [right; by left|by eexists]]);
    (destruct (tag_recv_done renv); simpl;
     [|left; split; [right; by right|by eexists]]);
    right;
    (destruct (_close_after_n_recv (tag_recv_during renv _)); simpl;
     [case_bool_decide; simpl|]);
    (split; [done|by eexists]).
Qed.

(** X17: the endpoint never has more finished receives than posted ones.
    If the other tasks that run while [recv] is suspended do not lower the
    number of outstanding receives, then after [recv], however it ends,
    the number of outstanding receives is not negative if it was not
    before; and it is at least what it was before when [recv] returned. *)
Theorem recv_keeps_outstanding renv buffer tag force_tag self :
  (∀ s, outstanding s ≤ outstanding (tag_recv_during renv s)) →
  0 ≤ outstanding self →
  let r := recv renv buffer tag force_tag self in
  0 ≤ outstanding (state_of r) ∧
  (∀ v, outcome_of r = Ok v → outstanding self ≤ outstanding (state_of r)).
Proof.
  intros Hdur Hout r. unfold r.
  assert (Hposted : outstanding (set_recv_count (_recv_count self + 1) self)
                    = outstanding self + 1)
    by (unfold outstanding; simpl; lia).
  pose proof (Hdur (set_recv_count (_recv_count self + 1) self)) as Hd.
  rewrite Hposted in Hd.
  assert (Hfin : ∀ s, outstanding
            (set_finished_recv_count (_finished_recv_count s + 1) s)
            = outstanding s - 1)
    by (intros; unfold outstanding; simpl; lia).
  assert (Hthr : ∀ s, outstanding (after_threshold_check s) = outstanding s).
  { intros s. unfold after_threshold_check.
    destruct (_close_after_n_recv s); [case_bool_decide|]; done. }
  destruct (recv_states renv buffer tag force_tag self)
    as [[[-> |[-> | ->]] [e ->]]|[-> [v ->]]];
    rewrite ?Hthr, ?Hfin, ?Hposted; split; try lia; intros; try done; lia.
Qed.
End RecvProps.


Section CloseProps.
Context `{Externals}.


End CloseProps.

(** * Further properties of the context *)

Section MoreContextProps.
Context `{Externals}.

(** X20: where the progress mode comes from. [_check_progress_mode]
    returns a mode exactly when that mode is one of ["polling"],
    ["thread"], ["thread-polling"] and it is the explicit argument, or the
    argument is [None] and it is the value of [UCXPY_PROGRESS_MODE], or
    ["thread"] when the variable is unset; the environment is not looked at
    when an argument is given. In every other case the error is
    [ValueError]. *)
Theorem _check_progress_mode_spec env pm :
  (∀ mode,
     _check_progress_mode env pm = Ok mode ↔
     mode ∈ valid_progress_modes ∧
     (pm = PStr mode ∨
      pm = PNone ∧
      (environ env !! "UCXPY_PROGRESS_MODE" = Some mode ∨
       environ env !! "UCXPY_PROGRESS_MODE" = None ∧ mode = "thread"))) ∧
  (∀ e, _check_progress_mode env pm = Raise e → e = ValueError).
Proof.
  assert (Hv : ∀ s mode,
    (if existsb (λ m, bool_decide (s = m)) valid_progress_modes
     then Ok s else Raise ValueError) = Ok mode ↔
    mode ∈ valid_progress_modes ∧ s = mode).
  { intros s mode. destruct (existsb _ _) eqn:E.
    - split.
      + intros [= ->]. split; [|done].
        apply existsb_exists in E as (m & Hm & Heq).
        apply bool_decide_eq_true in Heq. subst m. by apply list_elem_of_In.
      + by intros [_ ->].
    - split; [done|]. intros [Hin ->].
      assert (existsb (λ m, bool_decide (mode = m)) valid_progress_modes
              = true); [|congruence].
      apply existsb_exists. exists mode. split.
      + by apply list_elem_of_In.
      + by apply bool_decide_eq_true. }
  assert (He : ∀ s e,
    (if existsb (λ m, bool_decide (s = m)) valid_progress_modes
     then Ok s else Raise ValueError) = Raise e → e = ValueError).
  { intros s e. destruct (existsb _ _); congruence. }
  unfold _check_progress_mode. split.
  - intros mode. destruct pm as [|b|z|s|bs]; cbv beta iota zeta.
    + destruct (environ env !! "UCXPY_PROGRESS_MODE") as [v|] eqn:Hvar;
        cbv beta iota zeta; rewrite Hv; split.
      * intros [? ->]. split; [done|]. right. split; [done|]. by left.
      * intros [? [?|[_ [?|[? _]]]]]; try done. split; [done|]. congruence.
      * intros [? <-]. split; [done|]. right. split; [done|]. by right.
      * intros [? [?|[_ [?|[_ ->]]]]]; done.
    + split; [done|]. by intros [_ [?|[? _]]].
    + split; [done|]. by intros [_ [?|[? _]]].
    + rewrite Hv. split.
      * intros [? ->]. split; [done|]. by left.
      * intros [? [[= ->]|[? _]]]; done.
    + split; [done|]. by intros [_ [?|[? _]]].
  - intros e. destruct pm as [|b|z|s|bs]; cbv beta iota zeta;
      try congruence;
      [destruct (environ env !! "UCXPY_PROGRESS_MODE")|]; apply He.
Qed.

(** X21: the future-notification flag is passed on whatever the progress
    mode is. [_check_enable_python_future] warns when the mode does not
    start with ["thread"] but returns the flag as requested: an explicit
    argument as it is, and without one whether [UCXPY_ENABLE_PYTHON_FUTURE]
    is set to something else than ["0"]. So every worker [__init__]
    constructs gets the requested flag, also in mode ["polling"]. *)
Theorem _check_enable_python_future_requested env epf :
  (∀ mode,
     _check_enable_python_future env epf mode =
       match epf with
       | PNone =>
           match environ env !! "UCXPY_ENABLE_PYTHON_FUTURE" with
           | Some v => PBool (negb (bool_decide (v = "0")))
           | None => PBool false
           end
       | v => v
       end) ∧
  (∀ pm ed self a b,
     EvCreateWorker a b
       ∈ trace_of (ApplicationContext_init env pm ed epf self) →
     epf ≠ PNone → b = epf).
Proof.
  split.
  - intros mode. by destruct epf.
  - intros pm ed self a b Hin Hne.
    destruct (ApplicationContext_init_trace env pm ed epf self)
      as (rest & Hrest & [Ht|[Ht|(mode & _ & Ht)]]); rewrite Ht in Hin.
    + by apply elem_of_nil in Hin.
    + apply list_elem_of_singleton in Hin. done.
    + apply elem_of_cons in Hin as [Hin|Hin]; [done|].
      apply elem_of_cons in Hin as [Hin|Hin]; [|by apply Hrest in Hin].
      injection Hin as -> ->. by destruct epf.
Qed.

(** X22: when the constructor succeeds. If [loop] is not a Python builtin,
    [ApplicationContext.__init__] returns exactly when the progress mode is
    valid, the transport context and the worker are constructed, and the
    worker reports Python-future notification disabled. The new context
    then has that mode, no notifier thread and no queue, and one progress
    binding, which is for the current event loop. *)
Theorem ApplicationContext_init_Ok env pm ed epf self :
  "loop" ∉ python_builtins →
  let r := ApplicationContext_init env pm ed epf self in
  (outcome_of r = Ok () ↔
   ∃ mode, _check_progress_mode env pm = Ok mode ∧
           context_create env = Ok () ∧ worker_create env = Ok () ∧
           worker_python_future env (_check_enable_delayed_submission env ed)
             (_check_enable_python_future env epf mode) = false) ∧
  (outcome_of r = Ok () →
   _check_progress_mode env pm = Ok (progress_mode (state_of r)) ∧
   notifier_thread (state_of r) = None ∧
   notifier_thread_q (state_of r) = None ∧
   ctx_inv (state_of r) ∧
   ∃ task, progress_tasks (state_of r) = [task] ∧
           task_event_loop task = get_event_loop env).
Proof.
  intros Hb r.
  assert (Hiff : outcome_of r = Ok () →
    ∃ mode, _check_progress_mode env pm = Ok mode ∧
            context_create env = Ok () ∧ worker_create env = Ok () ∧
            worker_python_future env (_check_enable_delayed_submission env ed)
              (_check_enable_python_future env epf mode) = false).
  { unfold r. intros Hok.
    destruct (_check_progress_mode env pm) as [mode|] eqn:Hmode;
      [|by unfold ApplicationContext_init in Hok; unfold_prog;
          rewrite Hmode in Hok].
    destruct (context_create env) as [[]|] eqn:Hctx;
      [|by unfold ApplicationContext_init in Hok; unfold_prog;
          rewrite Hmode, Hctx in Hok].
    destruct (worker_create env) as [[]|] eqn:Hwk;
      [|by unfold ApplicationContext_init in Hok; unfold_prog;
          rewrite Hmode, Hctx, Hwk in Hok].
    destruct (worker_python_future env
                (_check_enable_delayed_submission env ed)
                (_check_enable_python_future env epf mode)) eqn:Hpf;
      [|by eauto].
    by rewrite (ApplicationContext_init_NameError env pm ed epf mode self
                  Hmode Hctx Hwk Hpf Hb) in Hok. }
  split.
  - split; [exact Hiff|].
    intros (mode & Hmode & Hctx & Hwk & Hpf).
    by apply (ApplicationContext_init_inv env pm ed epf mode self).
  - intros Hok. destruct (Hiff Hok) as (mode & Hmode & Hctx & Hwk & Hpf).
    pose proof (_check_progress_mode_valid _ _ _ Hmode) as Hvalid.
    unfold r, ApplicationContext_init, start_notifier_thread. unfold_prog.
    rewrite Hmode, Hctx, Hwk. simpl. rewrite Hpf. simpl.
    match goal with |- context [continuous_ucx_progress env None ?s] =>
      edestruct (continuous_ucx_progress_fresh env None s)
        as (task & Hloop & ->); [done|done|reflexivity|]
    end.
    simpl. split; [done|]. split; [done|]. split; [done|]. split.
    + repeat split; simpl; eauto. apply NoDup_singleton.
    + by exists task.
Qed.

(** X23: the bindings of different event loops do not disturb each other.
    Registering progress for one loop keeps every task already registered,
    in its place, adds at most one task at the end, and leaves the number
    of bindings of every other loop as it was. *)
Theorem continuous_ucx_progress_other_loops env event_loop self loop :
  loop ≠ target_loop env event_loop →
  let r := continuous_ucx_progress env event_loop self in
  progress_tasks self `prefix_of` progress_tasks (state_of r) ∧
  (length (progress_tasks (state_of r)) ≤ S (length (progress_tasks self)))%nat
  ∧ bindings_for loop (state_of r) = bindings_for loop self.
Proof.
  intros Hne r. unfold r, continuous_ucx_progress, target_loop in *.
  unfold_prog.
  destruct (existsb _ _); simpl.
  { split; [done|]. split; [lia|done]. }
  assert (Hadd : ∀ task,
    task_event_loop task = match event_loop with
                           | Some l => l
                           | None => get_event_loop env
                           end →
    progress_tasks self `prefix_of` progress_tasks self ++ [task] ∧
    (length (progress_tasks self ++ [task])
       ≤ S (length (progress_tasks self)))%nat ∧
    length (List.filter (λ t, ProgressTask_eq t loop)
              (progress_tasks self ++ [task]))
      = length (List.filter (λ t, ProgressTask_eq t loop)
                  (progress_tasks self))).
  { intros task Htask. split; [by eexists|].
    split; [rewrite length_app; simpl; lia|].
    rewrite List.filter_app. simpl. unfold ProgressTask_eq at 2.
    rewrite bool_decide_eq_false_2 by congruence.
    by rewrite app_nil_r. }
  unfold bindings_for.
  repeat (case_bool_decide; simpl);
    destruct (attr_worker self); simpl;
    try (split; [done|]; split; [lia|done]);
    by apply Hadd.
Qed.
End MoreContextProps.

(** * Properties of the module-level context *)

Lemma drop_keys_lookup (keys : list string) (options : gmap string string) k :
  foldl (λ options k,
           if bool_decide (is_Some (options !! k))
           then delete k options
           else options) options keys !! k
  = if bool_decide (k ∈ keys) then None else options !! k.
Proof.
  revert options. induction keys as [|k' keys IH]; intros options;
    cbn [foldl].
  - by rewrite bool_decide_eq_false_2 by apply not_elem_of_nil.
  - rewrite IH. clear IH.
    destruct (decide (k ∈ keys)) as [Hin|Hin].
    + rewrite !bool_decide_eq_true_2; [done|by apply list_elem_of_further|done].
    + rewrite (bool_decide_eq_false_2 (k ∈ keys)) by done.
      destruct (decide (k = k')) as [->|Hne].
      * rewrite (bool_decide_eq_true_2 (k' ∈ k' :: keys))
          by apply list_elem_of_here.
        destruct (options !! k') as [v|] eqn:E.
        -- rewrite bool_decide_eq_true_2 by by eexists.
           apply lookup_delete_eq.
        -- rewrite bool_decide_eq_false_2; [done|]. by intros [v Hv].
      * rewrite (bool_decide_eq_false_2 (k ∈ k' :: keys)).
        -- destruct (bool_decide (is_Some (options !! k'))); [|done].
           by apply lookup_delete_ne.
        -- intros [?|?]%elem_of_cons; done.
Qed.

Section GlobalProps.
Context `{Externals}.

(** X24: what [env_takes_precedence] removes. After the loop of [init]
    over the environment, an option is gone exactly if a variable of that
    name is set in the environment; every other option keeps its value,
    and no option is added. *)
Theorem drop_environ_keys_lookup environ options k :
  core.drop_environ_keys environ options !! k
  = if bool_decide (is_Some (environ !! k)) then None else options !! k.
Proof.
  unfold core.drop_environ_keys. rewrite drop_keys_lookup.
  assert (Hin : k ∈ (map_to_list environ).*1 ↔ is_Some (environ !! k)).
  { rewrite list_elem_of_fmap. split.
    - intros [[k' v] [-> Hkv]]. apply elem_of_map_to_list in Hkv. by eexists.
    - intros [v Hv]. exists (k, v). split; [done|].
      by apply elem_of_map_to_list. }
  destruct (decide (is_Some (environ !! k))) as [Hs|Hs].
  - rewrite !bool_decide_eq_true_2; [done|done|by apply Hin].
  - rewrite !bool_decide_eq_false_2; [done|done|by rewrite Hin].
Qed.

Lemma new_ApplicationContext_run {S} env pm ed epf (s : S) :
  core.new_ApplicationContext env pm ed epf s =
    (trace_of (ApplicationContext_init env pm ed epf blank_ApplicationContext),
     s,
     match outcome_of (ApplicationContext_init env pm ed epf
                         blank_ApplicationContext) with
     | Ok _ => Ok (state_of (ApplicationContext_init env pm ed epf
                               blank_ApplicationContext))
     | Raise e => Raise e
     end).
Proof.
  unfold core.new_ApplicationContext. unfold_prog.
  by destruct (ApplicationContext_init _ _ _ _ _) as [[t obj] r].
Qed.

(** X25: the module is initiated once. [init] on an initiated module
    raises [RuntimeError] before anything else: the context, the options
    and the transport are not touched, whatever the arguments. On a module
    that is not initiated, [init] constructs the context with the given
    progress mode: when the constructor raises, [init] raises the same and
    the module stays uninitiated; when it returns, the module holds the
    new context, a second [init] raises [RuntimeError], and [_get_ctx]
    returns without constructing anything. *)
Theorem init_once env options env_takes_precedence progress_mode :
  let constructed :=
    ApplicationContext_init env progress_mode PNone PNone
      blank_ApplicationContext in
  let r := core.init env options env_takes_precedence progress_mode None in
  (∀ ctx options' flag mode,
     core.init env options' flag mode (Some ctx)
       = ([], Some ctx, Raise RuntimeError)) ∧
  trace_of r = trace_of constructed ∧
  (∀ e, outcome_of constructed = Raise e →
     outcome_of r = Raise e ∧ state_of r = None) ∧
  (outcome_of constructed = Ok () →
     state_of r = Some (state_of constructed) ∧
     outcome_of r = Ok (if env_takes_precedence
                        then core.drop_environ_keys (environ env) options
                        else options) ∧
     outcome_of (core.init env options env_takes_precedence progress_mode
                   (state_of r)) = Raise RuntimeError ∧
     core._get_ctx env (state_of r) = ([], state_of r, Ok ())).
Proof.
  intros constructed r. split; [done|].
  unfold r, core.init. unfold_prog.
  rewrite new_ApplicationContext_run. fold constructed.
  destruct constructed as [[t obj] [[]|e]]; simpl.
  - split; [by rewrite app_nil_r|]. split; [done|]. by intros _.
  - split; [done|]. split; [|done]. by intros e' [= ->].
Qed.

(** X26: [_get_ctx] creates the context lazily and keeps it. On an
    initiated module it returns without any call on the transport and
    leaves the context as it is. On a module that is not initiated it runs
    the constructor with no arguments: when that raises, the exception
    goes to the caller and the module stays uninitiated; when it returns,
    the module holds the new context, and the module-level
    [continuous_ucx_progress] for the current event loop then finds the
    binding the constructor registered and changes nothing. *)
Theorem _get_ctx_lazy env :
  let constructed :=
    ApplicationContext_init env PNone PNone PNone blank_ApplicationContext in
  let r := core._get_ctx env None in
  (∀ ctx, core._get_ctx env (Some ctx) = ([], Some ctx, Ok ())) ∧
  trace_of r = trace_of constructed ∧
  (∀ e, outcome_of constructed = Raise e →
     outcome_of r = Raise e ∧ state_of r = None) ∧
  ("loop" ∉ python_builtins → outcome_of constructed = Ok () →
     state_of r = Some (state_of constructed) ∧ outcome_of r = Ok () ∧
     core.continuous_ucx_progress env None (state_of r)
       = ([], state_of r, Ok ())).
Proof.
  intros constructed r. split; [done|].
  unfold r, core._get_ctx. unfold_prog.
  rewrite new_ApplicationContext_run. fold constructed.
  pose proof (ApplicationContext_init_Ok env PNone PNone PNone
                blank_ApplicationContext) as Hinit.
  fold constructed in Hinit.
  destruct constructed as [[t obj] [[]|e]] eqn:Hc; simpl.
  - split; [by rewrite app_nil_r|]. split; [done|]. intros Hb _.
    split; [done|]. split; [done|].
    destruct (Hinit Hb) as [_ Hst]. unfold outcome_of, state_of in Hst.
    simpl in Hst.
    destruct (Hst eq_refl) as (_ & _ & _ & _ & task & Htasks & Hloop).
    unfold core.continuous_ucx_progress, core._get_ctx, core.on_ctx.
    unfold_prog. simpl.
    rewrite continuous_ucx_progress_registered; [done|].
    rewrite Htasks. simpl. unfold ProgressTask_eq.
    by rewrite bool_decide_eq_true_2.
  - split; [done|]. split; [|done]. by intros e' [= ->].
Qed.
End GlobalProps.

(** * Properties of the notifier thread and of listeners *)

Lemma _notifierThread_continues tick ticks :
  tick_continues tick →
  _notifierThread (tick :: ticks) =
    (NPopulate :: NWait ::
       (if tick_ready tick then [NRunRequestNotifier] else [])
       ++ (_notifierThread ticks).1,
     (_notifierThread ticks).2).
Proof.
  intros (Hp & Hstop & Hw). unfold tick_stops, tick_ready in *.
  cbn [_notifierThread]. rewrite Hp.
  destruct (_notifierThread ticks) as [calls e].
  destruct Hw as [Hw|[Hw Hr]]; rewrite Hw in *; simpl in *;
    destruct (tick_message tick) as [q_val|]; simpl in *;
    rewrite ?Hstop, ?Hr; done.
Qed.

Lemma _notifierThread_stops tick ticks st :
  tick_populate tick = Ok () → tick_wait tick = Ok st →
  tick_stops tick = true →
  _notifierThread (tick :: ticks) = ([NPopulate; NWait], ThreadReturned).
Proof.
  intros Hp Hw Hstop. unfold tick_stops in Hstop. cbn [_notifierThread].
  rewrite Hp, Hw in *.
  destruct st, (tick_message tick) as [q_val|]; simpl in *;
    rewrite ?Hstop; done.
Qed.

(** X27: the notifier thread runs until it is told to stop. After any
    number of turns that are timeouts or successful notifications, a turn
    in which the wait reports shutdown or the queue holds ["shutdown"]
    makes the thread return in that very turn, without running the
    request notifier in it; nothing after that turn is looked at. Until
    then the thread has waited once per turn and has run the request
    notifier once for each turn with ready requests, and never for a
    timeout. *)
Theorem _notifierThread_runs_until_stopped before stop st rest :
  Forall tick_continues before →
  tick_populate stop = Ok () → tick_wait stop = Ok st →
  tick_stops stop = true →
  let r := _notifierThread (before ++ stop :: rest) in
  r.2 = ThreadReturned ∧
  r = _notifierThread (before ++ [stop]) ∧
  count_call NWait r.1 = S (length before) ∧
  count_call NRunRequestNotifier r.1
    = length (List.filter tick_ready before).
Proof.
  intros Hbefore Hp Hw Hstop r. unfold r. clear r.
  induction Hbefore as [|tick before Htick _ IH].
  - simpl app.
    rewrite (_notifierThread_stops stop rest st Hp Hw Hstop).
    rewrite (_notifierThread_stops stop [] st Hp Hw Hstop). done.
  - destruct IH as (IH1 & IH2 & IH3 & IH4).
    rewrite <- !app_comm_cons.
    rewrite !(_notifierThread_continues _ _ Htick).
    rewrite <- IH2. split; [done|]. split; [done|].
    cbn [fst snd]. unfold count_call in *. cbn [List.filter length].
    rewrite !List.filter_app, !length_app, IH3, IH4.
    destruct (tick_ready tick); simpl; lia.
Qed.

(** X28: the notifier thread does not stop by itself, and a message other
    than ["shutdown"] does not stop it. As long as every turn is a timeout
    or a successful notification, whatever else was read from the queue,
    the thread is still in its loop. *)
Theorem _notifierThread_keeps_running ticks :
  Forall tick_continues ticks →
  (_notifierThread ticks).2 = ThreadRunning ∧
  count_call NRunRequestNotifier (_notifierThread ticks).1
    = length (List.filter tick_ready ticks).
Proof.
  induction 1 as [|tick ticks Htick _ [IH1 IH2]]; [done|].
  rewrite (_notifierThread_continues _ _ Htick). split; [done|].
  cbn [fst]. unfold count_call in *. cbn [List.filter].
  rewrite List.filter_app, length_app, IH2.
  destruct (tick_ready tick); simpl; lia.
Qed.

Section ListenerProps.
Context `{Externals}.

(** X29: the port of a listener and its life. [create_listener] gives
    [UCXListener.create] the port [0] for [port=None] and the given port
    otherwise; a port that is not a number raises [TypeError] and no
    listener is created. A listener that is returned is not closed and
    reports the address of the transport listener; after [close()] it is
    closed, stays closed, and its [ip] and [port] raise
    [AttributeError]. *)
Theorem create_listener_port_and_life ienv listener_create port self :
  ctx_inv self →
  let run p := create_listener ienv listener_create p self in
  run PNone = run (PInt 0) ∧
  (∀ s, outcome_of (run (PStr s)) = Raise TypeError) ∧
  (∀ bs, outcome_of (run (PBytes bs)) = Raise TypeError) ∧
  (∀ l, outcome_of (run port) = Ok l →
     ∃ ul,
       listener_create (match port with PNone => PInt 0 | v => v end)
         = Ok ul ∧
       Listener_closed l = false ∧
       Listener_ip l = Ok (listener_ip ul) ∧
       Listener_port l = Ok (listener_port ul) ∧
       Listener_closed (Listener_close l) = true ∧
       Listener_close (Listener_close l) = Listener_close l ∧
       Listener_ip (Listener_close l) = Raise AttributeError ∧
       Listener_port (Listener_close l) = Raise AttributeError).
Proof.
  intros Hinv run. unfold run.
  destruct (continuous_ucx_progress_inv ienv None self Hinv)
    as (self' & Hrun & (_ & [w Hw] & _) & _ & _).
  unfold create_listener. unfold_prog. rewrite Hrun.
  unfold attr_worker. rewrite Hw. simpl.
  split; [done|]. split; [done|]. split; [done|].
  intros l. destruct port; simpl; try done;
    (destruct (listener_create _) as [ul|] eqn:Hc; simpl; [|done]);
    intros Hl; apply Ok_inj in Hl; subst l; exists ul; by repeat split.
Qed.
End ListenerProps.

(** * The further properties on concrete inputs *)

Lemma sample_tags_fit a b :
  0 ≤ a < two64 → 0 ≤ b < two64 → @tags_fit sample_externals a b.
Proof. intros Ha Hb. repeat split; try tauto; apply sample_hash64bits_range. Qed.

Lemma exchange_peer_info_accepts_peer_witness :
  let env := sample_streams (sample_info 5 6) in
  @tags_fit sample_externals 3 4 ∧
  @struct_pack_QQQ sample_externals 5 6 (sample_hash64bits [PInt 5; PInt 6])
    = Ok (sample_info 5 6) ∧
  transfers_ok env (sample_info 5 6) ∧
  outcome_of (@exchange_peer_info sample_externals () env 3 4 true ())
    = Ok (peer_info_dict 5 6 (sample_hash64bits [PInt 5; PInt 6])).
Proof.
  assert (Hfit : @tags_fit sample_externals 3 4)
    by (apply sample_tags_fit; by vm_compute).
  split; [exact Hfit|]. split; [reflexivity|]. split; [by repeat split|].
  apply (exchange_peer_info_accepts_peer (H := sample_externals)
           (sample_streams (sample_info 5 6)) 3 4 true () 5 6
           (sample_info 5 6) Hfit); [reflexivity|by repeat split].
Defined.

Lemma exchange_peer_info_checksum_tampered_witness :
  let env := sample_streams sample_tampered in
  @tags_fit sample_externals 3 4 ∧
  @struct_pack_QQQ sample_externals 5 6 (sample_hash64bits [PInt 5; PInt 6])
    = Ok (sample_info 5 6) ∧
  transfers_ok env sample_tampered ∧
  length sample_tampered = 24%nat ∧
  take 16 sample_tampered = take 16 (sample_info 5 6) ∧
  drop 16 sample_tampered ≠ drop 16 (sample_info 5 6) ∧
  outcome_of (@exchange_peer_info sample_externals () env 3 4 false ())
    = Raise RuntimeError.
Proof.
  assert (Hfit : @tags_fit sample_externals 3 4)
    by (apply sample_tags_fit; by vm_compute).
  assert (Hne : drop 16 sample_tampered ≠ drop 16 (sample_info 5 6))
    by (by vm_compute).
  split; [exact Hfit|]. split; [reflexivity|]. split; [by repeat split|].
  split; [reflexivity|]. split; [reflexivity|]. split; [exact Hne|].
  apply (exchange_peer_info_checksum_tampered (H := sample_externals)
           (sample_streams sample_tampered) 3 4 false () 5 6
           (sample_info 5 6) sample_tampered Hfit);
    [reflexivity|by repeat split|reflexivity|reflexivity|exact Hne].
Defined.

Lemma exchange_peer_info_Ok_only_after_exchange_witness :
  let env := sample_streams (sample_info 5 6) in
  let ret := peer_info_dict 5 6 (sample_hash64bits [PInt 5; PInt 6]) in
  outcome_of (@exchange_peer_info sample_externals () env 3 4 false ())
    = Ok ret ∧
  @tags_fit sample_externals 3 4 ∧
  ∃ peer m c,
    transfers_ok env peer ∧
    @struct_unpack_QQQ sample_externals peer
      = Ok (m, c, sample_hash64bits [PInt m; PInt c]) ∧
    ret = peer_info_dict m c (sample_hash64bits [PInt m; PInt c]).
Proof.
  assert (Hret : outcome_of (@exchange_peer_info sample_externals ()
                   (sample_streams (sample_info 5 6)) 3 4 false ())
                 = Ok (peer_info_dict 5 6
                         (sample_hash64bits [PInt 5; PInt 6])))
    by (by vm_compute).
  split; [exact Hret|].
  destruct (exchange_peer_info_Ok_only_after_exchange
              (H := sample_externals) _ _ _ _ _ _ Hret) as (Hfit & _ & Hp).
  split; [exact Hfit|exact Hp].
Defined.

Lemma exchange_peer_info_unfit_witness :
  ¬ @tags_fit sample_externals (-1) 4 ∧
  @exchange_peer_info sample_externals () (sample_streams []) (-1) 4 true ()
    = ([], (), Raise StructError).
Proof.
  assert (Hn : ¬ @tags_fit sample_externals (-1) 4).
  { intros [[Hneg _] _]. by vm_compute in Hneg. }
  split; [exact Hn|].
  exact (exchange_peer_info_unfit (H := sample_externals)
           (sample_streams []) (-1) 4 true () Hn).
Defined.

Lemma _listener_handler_coroutine_failed_witness :
  let run := @_listener_handler_coroutine sample_externals ()
               sample_ucx_ep_B (CtxRef 1) sample_henv_reset true (Ok ()) () in
  outcome_of (@exchange_peer_info sample_externals ()
                (streams sample_henv_reset)
                (@local_msg_tag sample_externals sample_henv_reset
                   sample_ucx_ep_B)
                (@local_ctrl_tag sample_externals sample_henv_reset
                   sample_ucx_ep_B) true ())
    = Raise UCXConnectionResetError ∧
  outcome_of run = Raise UCXConnectionResetError ∧
  delivered (trace_of run) = [] ∧ state_of run = ().
Proof.
  split; [by vm_compute|].
  apply (_listener_handler_coroutine_failed (H := sample_externals)
           sample_ucx_ep_B (CtxRef 1) sample_henv_reset true (Ok ()) ()
           UCXConnectionResetError).
  by vm_compute.
Defined.


Lemma creation_registers_progress_witness :
  let registered :=
    state_of (continuous_ucx_progress sample_init_env None
                (sample_ctx false)) in
  ctx_inv (sample_ctx false) ∧
  ctx_inv registered ∧
  bindings_for (get_event_loop sample_init_env) registered = 1%nat ∧
  state_of (@create_endpoint sample_externals (CtxRef 0) sample_init_env
              (Raise UCXError) sample_henv_A (sample_ctx false))
    = registered ∧
  state_of (create_endpoint_from_worker_address (CtxRef 0) sample_init_env
              (Raise UCXError) (sample_ctx false)) = registered ∧
  state_of (create_listener sample_init_env sample_listener_create
              (PStr "8080") (sample_ctx false)) = registered.
Proof.
  split; [exact (sample_ctx_inv false)|].
  exact (creation_registers_progress (H := sample_externals) (CtxRef 0)
           sample_init_env (Raise UCXError) sample_henv_A
           sample_listener_create (PStr "8080") (sample_ctx false)
           (sample_ctx_inv false)).
Defined.

Lemma create_endpoint_all_or_nothing_witness :
  let run := @create_endpoint sample_externals (CtxRef 0) sample_init_env
               (Raise UCXError) sample_henv_A (sample_ctx false) in
  ctx_inv (sample_ctx false) ∧
  outcome_of run = Raise UCXError ∧ trace_of run = [EvCreateEndpoint].
Proof.
  split; [exact (sample_ctx_inv false)|].
  exact (proj1 (create_endpoint_all_or_nothing (H := sample_externals)
                  (CtxRef 0) sample_init_env (Raise UCXError) sample_henv_A
                  (sample_ctx false) (sample_ctx_inv false))
           UCXError eq_refl).
Defined.

Lemma untagged_endpoint_needs_forced_tag_witness :
  let ep := Endpoint_init sample_ucx_ep (CtxRef 0) None in
  ctx_inv (sample_ctx false) ∧
  outcome_of (create_endpoint_from_worker_address (CtxRef 0) sample_init_env
                (Ok sample_ucx_ep) (sample_ctx false)) = Ok ep ∧
  ep_error sample_ucx_ep = None ∧ ep_alive sample_ucx_ep = true ∧
  @send sample_externals sample_send_ok (PBytes []) PNone false ep
    = ([], ep, Raise TypeError) ∧
  @recv sample_externals sample_recv_queued (PBytes []) PNone false ep
    = ([], ep, Raise TypeError).
Proof.
  split; [exact (sample_ctx_inv false)|]. split; [reflexivity|].
  split; [reflexivity|]. split; [reflexivity|].
  refine (proj1 (proj2 (untagged_endpoint_needs_forced_tag
                          (H := sample_externals) (CtxRef 0) sample_init_env
                          sample_ucx_ep (sample_ctx false) sample_send_ok
                          sample_recv_queued (PBytes []) PNone false _
                          (sample_ctx_inv false) eq_refl eq_refl eq_refl))
            _).
  by left.
Defined.

Lemma endpoint_methods_keep_linked_witness :
  (∀ s, linked s → linked (tag_send_during sample_cancel_aborted s)) ∧
  (∀ s, linked s → linked (tag_recv_during sample_recv_queued s)) ∧
  (∀ s, linked s → linked (abort s)) ∧
  linked sample_endpoint ∧
  linked (state_of (@send sample_externals sample_cancel_aborted (PBytes [])
                      PNone false sample_endpoint)) ∧
  linked (state_of (@recv sample_externals sample_recv_queued (PBytes [])
                      PNone false sample_endpoint)).
Proof.
  assert (H1 : ∀ s, linked s → linked (tag_send_during sample_cancel_aborted s))
    by (intros s _; apply linked_abort).
  assert (H2 : ∀ s, linked s → linked (tag_recv_during sample_recv_queued s))
    by (intros s Hs; exact Hs).
  assert (H3 : ∀ s, linked s → linked (abort s))
    by (intros s _; apply linked_abort).
  assert (H4 : linked sample_endpoint) by (by split).
  split; [exact H1|]. split; [exact H2|]. split; [exact H3|].
  split; [exact H4|].
  destruct (endpoint_methods_keep_linked (H := sample_externals)
              sample_cancel_aborted sample_recv_queued abort (PBytes [])
              (BuffersSeq []) PNone false 1 false H1 H2 H3)
    as (Hsend & _ & Hrecv & _).
  split; [exact (Hsend _ H4)|exact (Hrecv _ H4)].
Defined.

Lemma send_refused_witness :
  _ep sample_endpoint_error = Some sample_ucx_ep_error ∧
  ep_error sample_ucx_ep_error = Some UCXConnectionResetError ∧
  @send sample_externals sample_send_ok (PBytes []) PNone false
    sample_endpoint_error
    = ([], sample_endpoint_error, Raise UCXConnectionResetError) ∧
  @send_multi sample_externals sample_send_ok (BuffersSeq []) PNone false
    sample_endpoint_error
    = ([], sample_endpoint_error, Raise UCXConnectionResetError).
Proof.
  split; [reflexivity|]. split; [reflexivity|].
  exact (proj1 (send_refused (H := sample_externals) sample_send_ok
                  (PBytes []) (BuffersSeq []) PNone false
                  sample_endpoint_error sample_ucx_ep_error eq_refl)
           UCXConnectionResetError eq_refl).
Defined.

Lemma send_counts_admitted_witness :
  let r := @send sample_externals sample_send_ok (PBytes []) PNone false
             sample_endpoint in
  is_open sample_endpoint ∧
  tags_item sample_endpoint "msg_send" = Ok 11 ∧
  tag_send_post sample_send_ok = Ok () ∧
  state_of r = set_send_count 1 sample_endpoint.
Proof.
  split; [exact sample_endpoint_open|]. split; [reflexivity|].
  split; [reflexivity|].
  exact (proj1 (proj2 (send_counts_admitted (H := sample_externals)
                         sample_send_ok (PBytes []) PNone false
                         sample_endpoint 11 sample_endpoint_open eq_refl))
           eq_refl).
Defined.

Lemma send_obj_size_then_object_witness :
  let size := @array_Q sample_externals 5 in
  let r := @send_obj sample_externals sample_send_ok sample_send_ok
             sample_object PNone sample_endpoint in
  is_open sample_endpoint ∧
  tags_item sample_endpoint "msg_send" = Ok 11 ∧
  Z.of_nat (length sample_object) < two64 ∧
  @unpack_Q sample_externals size = 5 ∧
  tag_sends (trace_of r)
    = [(PBytes size, PInt 11); (PBytes sample_object, PInt 11)].
Proof.
  split; [exact sample_endpoint_open|]. split; [reflexivity|].
  split; [by vm_compute|].
  destruct (send_obj_size_then_object (H := sample_externals) sample_send_ok
              sample_send_ok sample_object PNone sample_endpoint 11
              sample_endpoint_open eq_refl eq_refl) as (Hsize & _ & Hboth).
  split; [exact Hsize|].
  apply (Hboth PNone); [reflexivity|exact sample_endpoint_open|reflexivity].
Defined.

Lemma recv_probes_before_error_check_witness :
  let r := @recv sample_externals sample_recv_queued (PBytes []) PNone false
             sample_endpoint_error in
  _ep sample_endpoint_error = Some sample_ucx_ep_error ∧
  _ctx sample_endpoint_error ≠ None ∧
  tags_item sample_endpoint_error "msg_recv" = Ok 12 ∧
  tag_probe_result sample_recv_queued = Ok true ∧
  take 2 (trace_of r) = [EvTagProbe (PInt 12); EvTagRecv (PBytes []) (PInt 12)].
Proof.
  assert (Hctx : _ctx sample_endpoint_error ≠ None) by done.
  split; [reflexivity|]. split; [exact Hctx|]. split; [reflexivity|].
  split; [reflexivity|].
  exact (proj1 (recv_probes_before_error_check (H := sample_externals)
                  sample_recv_queued (PBytes []) PNone false
                  sample_endpoint_error sample_ucx_ep_error 12 eq_refl Hctx
                  eq_refl) eq_refl).
Defined.

Lemma recv_completion_witness :
  let armed := set_close_after_n_recv (Some 1) sample_endpoint in
  let r := @recv sample_externals sample_recv_queued (PBytes []) PNone false
             armed in
  _ep armed = Some sample_ucx_ep ∧ _ctx armed ≠ None ∧
  tags_item armed "msg_recv" = Ok 12 ∧
  recv_admitted sample_recv_queued sample_ucx_ep ∧
  tag_recv_post sample_recv_queued = Ok () ∧
  tag_recv_done sample_recv_queued = Ok (PBytes []) ∧
  outcome_of r = Ok (PBytes []) ∧
  state_of r = abort (set_finished_recv_count 1 (set_recv_count 1 armed)).
Proof.
  assert (Hctx : _ctx (set_close_after_n_recv (Some 1) sample_endpoint)
                 ≠ None) by done.
  assert (Hadm : recv_admitted sample_recv_queued sample_ucx_ep)
    by (by left).
  split; [reflexivity|]. split; [exact Hctx|]. split; [reflexivity|].
  split; [exact Hadm|]. split; [reflexivity|]. split; [reflexivity|].
  destruct (proj1 (recv_completion (H := sample_externals)
                     sample_recv_queued (PBytes []) PNone false
                     (set_close_after_n_recv (Some 1) sample_endpoint)
                     sample_ucx_ep 12 eq_refl Hctx eq_refl Hadm eq_refl)
              (PBytes []) eq_refl) as (Hout & _ & Habort & _).
  split; [exact Hout|]. apply (Habort 1); [reflexivity|by vm_compute].
Defined.

Lemma recv_keeps_outstanding_witness :
  let r := @recv sample_externals sample_recv_queued (PBytes []) PNone false
             sample_endpoint in
  (∀ s, outstanding s ≤ outstanding (tag_recv_during sample_recv_queued s)) ∧
  0 ≤ outstanding sample_endpoint ∧
  0 ≤ outstanding (state_of r).
Proof.
  assert (Hd : ∀ s, outstanding s
                    ≤ outstanding (tag_recv_during sample_recv_queued s))
    by (intros s; apply Z.le_refl).
  assert (H0 : 0 ≤ outstanding sample_endpoint) by (by vm_compute).
  split; [exact Hd|]. split; [exact H0|].
  exact (proj1 (recv_keeps_outstanding (H := sample_externals)
                  sample_recv_queued (PBytes []) PNone false sample_endpoint
                  Hd H0)).
Defined.



Lemma ApplicationContext_init_Ok_witness :
  let r := @ApplicationContext_init sample_externals sample_init_env PNone
             PNone PNone blank_ApplicationContext in
  ("loop" ∉ sample_builtins) ∧
  outcome_of r = Ok () ∧
  notifier_thread (state_of r) = None ∧
  ∃ task, progress_tasks (state_of r) = [task] ∧
          task_event_loop task = get_event_loop sample_init_env.
Proof.
  assert (Hok : outcome_of (@ApplicationContext_init sample_externals
                  sample_init_env PNone PNone PNone blank_ApplicationContext)
                = Ok ()) by reflexivity.
  split; [exact loop_not_sample_builtin|]. split; [exact Hok|].
  destruct (proj2 (ApplicationContext_init_Ok (H := sample_externals)
                     sample_init_env PNone PNone PNone
                     blank_ApplicationContext loop_not_sample_builtin) Hok)
    as (_ & Hthread & _ & _ & Htask).
  split; [exact Hthread|exact Htask].
Defined.

Lemma continuous_ucx_progress_other_loops_witness :
  let r := continuous_ucx_progress sample_init_env (Some 7%nat)
             (sample_ctx false) in
  3%nat ≠ target_loop sample_init_env (Some 7%nat) ∧
  progress_tasks (sample_ctx false) `prefix_of` progress_tasks (state_of r) ∧
  (length (progress_tasks (state_of r))
     ≤ S (length (progress_tasks (sample_ctx false))))%nat ∧
  bindings_for 3%nat (state_of r) = bindings_for 3%nat (sample_ctx false).
Proof.
  assert (Hne : 3%nat ≠ target_loop sample_init_env (Some 7%nat)) by done.
  split; [exact Hne|].
  exact (continuous_ucx_progress_other_loops sample_init_env (Some 7%nat)
           (sample_ctx false) 3%nat Hne).
Defined.

Lemma _notifierThread_runs_until_stopped_witness :
  let before := [sample_tick_timeout; sample_tick_ready] in
  let r := _notifierThread
             (before ++ sample_tick_shutdown :: [sample_tick_ready]) in
  Forall tick_continues before ∧
  tick_populate sample_tick_shutdown = Ok () ∧
  tick_wait sample_tick_shutdown = Ok WaitReady ∧
  tick_stops sample_tick_shutdown = true ∧
  r.2 = ThreadReturned ∧
  r = _notifierThread (before ++ [sample_tick_shutdown]) ∧
  count_call NWait r.1 = 3%nat ∧
  count_call NRunRequestNotifier r.1 = 1%nat.
Proof.
  assert (Hb : Forall tick_continues [sample_tick_timeout; sample_tick_ready]).
  { repeat (apply List.Forall_cons;
            [split; [reflexivity|split; [reflexivity|]];
             first [by left|by right]|]).
    apply List.Forall_nil. }
  split; [exact Hb|]. split; [reflexivity|]. split; [reflexivity|].
  split; [reflexivity|].
  exact (_notifierThread_runs_until_stopped
           [sample_tick_timeout; sample_tick_ready] sample_tick_shutdown
           WaitReady [sample_tick_ready] Hb eq_refl eq_refl eq_refl).
Defined.

Lemma _notifierThread_keeps_running_witness :
  let ticks := [sample_tick_ready; sample_tick_timeout; sample_tick_ready] in
  Forall tick_continues ticks ∧
  (_notifierThread ticks).2 = ThreadRunning ∧
  count_call NRunRequestNotifier (_notifierThread ticks).1 = 2%nat.
Proof.
  assert (Hb : Forall tick_continues
                 [sample_tick_ready; sample_tick_timeout; sample_tick_ready]).
  { repeat (apply List.Forall_cons;
            [split; [reflexivity|split; [reflexivity|]];
             first [by left|by right]|]).
    apply List.Forall_nil. }
  split; [exact Hb|].
  exact (_notifierThread_keeps_running _ Hb).
Defined.

Lemma create_listener_port_and_life_witness :
  let run := create_listener sample_init_env sample_listener_create PNone
               (sample_ctx false) in
  ctx_inv (sample_ctx false) ∧
  run = create_listener sample_init_env sample_listener_create (PInt 0)
          (sample_ctx false) ∧
  ∃ l, outcome_of run = Ok l ∧ Listener_closed l = false ∧
       Listener_port l = Ok 49152 ∧
       Listener_port (Listener_close l) = Raise AttributeError.
Proof.
  split; [exact (sample_ctx_inv false)|].
  destruct (create_listener_port_and_life sample_init_env
              sample_listener_create PNone (sample_ctx false)
              (sample_ctx_inv false)) as (Hzero & _ & _ & Hlife).
  split; [exact Hzero|].
  eexists. split; [reflexivity|].
  destruct (Hlife _ eq_refl) as (ul & Hul & Hc & _ & Hp & _ & _ & _ & Hpc).
  split; [exact Hc|]. split; [|exact Hpc].
  rewrite Hp. simpl in Hul. apply Ok_inj in Hul. by subst ul.
Defined.
